(** * lz4_stream: the compressing [basic_ostream] and the decompressing
    [basic_istream] of [include/lz4_stream.h]

    The header wraps the LZ4 frame API ([lz4frame.h]) in two
    [std::streambuf] subclasses: [output_buffer] accumulates raw bytes in a
    put area and hands them to [LZ4F_compressUpdate]; [input_buffer]
    refills a get area by driving [LZ4F_decompress] over bytes read from
    an upstream [std::istream].

    The LZ4 frame library and the standard streams are not part of the
    repository: they appear here as interfaces ([LZ4F], [ByteSource]).
    The wrapper classes [basic_ostream] and [basic_istream] only forward
    to their buffer and are not modelled.

    Sizes and offsets are [nat].  The one subtraction of the header,
    [m_sourceBufferSize - m_offset], does not wrap as long as
    [m_offset <= m_sourceBufferSize]; [Source.wf] states this bound, and
    it is kept by every pass of the pull loop when the decoder consumes
    no more than it is offered ([wf_refilled], [wf_advance]).  The
    [std::int32_t] in which [CompressAndWrite] keeps the length of the put
    area holds it below 2^31 bytes ([cast_exact_of_fits]); the statements
    about the spans handed to the encoder are made for such buffers. *)

From Stdlib Require Import String List Arith ZArith Lia Bool.
From Stdlib Require Import Strings.Byte.
Import ListNotations.

(** ** Results of calls *)

(** A [size_t] returned by the frame API: an error code (recognised by
    [LZ4F_isError]) or a payload. *)
Inductive lz4f_result (errcode A : Type) : Type :=
| LZ4F_error (code : errcode)
| LZ4F_ok (a : A).
Arguments LZ4F_error {errcode A} code.
Arguments LZ4F_ok {errcode A} a.

(** How a C++ member function ends: it returns, it throws
    [std::runtime_error{what}], or an [assert] fails and the process
    aborts (the header is modelled with assertions enabled). *)
Inductive outcome (A : Type) : Type :=
| Returns (a : A)
| Throws (what : string)
| Aborts.
Arguments Returns {A} a.
Arguments Throws {A} what.
Arguments Aborts {A}.

(** State and exception monad: the state survives a throw. *)
Definition M (S A : Type) : Type := S -> outcome A * S.

Definition ret {S A} (a : A) : M S A := fun s => (Returns a, s).

Definition bind {S A B} (m : M S A) (k : A -> M S B) : M S B :=
  fun s =>
    match m s with
    | (Returns a, s') => k a s'
    | (Throws what, s') => (Throws what, s')
    | (Aborts, s') => (Aborts, s')
    end.

Definition throw {S A} (what : string) : M S A := fun s => (Throws what, s).

(** [assert(c)] *)
Definition assert {S} (c : S -> bool) : M S unit :=
  fun s => if c s then (Returns tt, s) else (Aborts, s).

Declare Scope cxx_scope.
Delimit Scope cxx_scope with cxx.
Notation "x <- m ;; k" := (bind m (fun x => k))
  (at level 61, m at next level, right associativity) : cxx_scope.
Notation "m ;; k" := (bind m (fun _ => k))
  (at level 61, right associativity) : cxx_scope.

(** ** The collaborators *)

(** The part of [lz4frame.h] the header calls.  A context is the value of
    the session behind the pointer; an operation returns the bytes it
    stored into the destination buffer (their number is the [size_t] the
    C function returns) and the next value of the session.
    [LZ4F_decompress] reports, through [srcSizePtr] and [dstSizePtr], how
    many source bytes it consumed and which bytes it produced. *)
Class LZ4F : Type := {
  errcode : Type;
  cctx : Type;
  dctx : Type;
  LZ4F_getErrorName : errcode -> string;
  LZ4F_compressBound : nat -> nat;
  LZ4F_createCompressionContext : lz4f_result errcode cctx;
  LZ4F_compressBegin : cctx -> nat -> lz4f_result errcode (list byte * cctx);
  LZ4F_compressUpdate :
    cctx -> nat -> list byte -> lz4f_result errcode (list byte * cctx);
  LZ4F_compressEnd : cctx -> nat -> lz4f_result errcode (list byte * cctx);
  LZ4F_createDecompressionContext : lz4f_result errcode dctx;
  LZ4F_decompress :
    dctx -> nat -> list byte -> lz4f_result errcode (nat * list byte * dctx)
}.

(** The upstream [std::istream]: [read(buf, n)] followed by [gcount()]. *)
Class ByteSource : Type := {
  istream : Type;
  istream_read : istream -> nat -> list byte * istream
}.

(** The byte-stream contract of the upstream: the stream stands for the
    bytes [content] still to come; a read hands out a prefix of them, at
    most [n] bytes, and hands out nothing only when asked for nothing or
    when none is left (short reads are allowed). *)
Definition reads_from {upstream : ByteSource}
    (content : istream -> list byte) : Prop :=
  forall (src : istream) (n : nat),
    content src
      = fst (istream_read src n) ++ content (snd (istream_read src n)) /\
    length (fst (istream_read src n)) <= n /\
    (0 < n -> fst (istream_read src n) = [] -> content src = []).

(** A decoder that, offered a non-empty span with [dstCapacity] bytes of
    room, reports an error or takes at least one byte or produces at
    least one, and never takes more than it was offered. *)
Definition decoder_progresses {codec : LZ4F} (dstCapacity : nat) : Prop :=
  forall (d : dctx) (src : list byte),
    src <> [] ->
    match LZ4F_decompress d dstCapacity src with
    | LZ4F_error _ => True
    | LZ4F_ok (src_size, out, _) =>
        src_size <= length src /\ (0 < src_size \/ out <> [])
    end.

(** Calls made on the collaborators, in order (ghost history). *)
Inductive call : Type :=
| CreateCompressionContext
| CompressBegin (dstCapacity : nat)
| CompressUpdate (dstCapacity : nat) (src : list byte)
| CompressEnd (dstCapacity : nat)
| FreeCompressionContext
| CreateDecompressionContext
| Decompress (dstCapacity : nat) (src : list byte)
| FreeDecompressionContext
| SourceRead (n : nat) (got : list byte).

Definition is_free_cctx (c : call) : bool :=
  match c with FreeCompressionContext => true | _ => false end.
Definition is_free_dctx (c : call) : bool :=
  match c with FreeDecompressionContext => true | _ => false end.
Definition is_compress_end (c : call) : bool :=
  match c with CompressEnd _ => true | _ => false end.
Definition is_source_read (c : call) : bool :=
  match c with SourceRead _ _ => true | _ => false end.

Definition count (p : call -> bool) (l : list call) : nat :=
  length (filter p l).

(** The raw bytes the calls of a history offered to the encoder, in
    order. *)
Definition fed (cs : list call) : list byte :=
  flat_map (fun c => match c with CompressUpdate _ src => src | _ => [] end)
    cs.

(** No call of the history offered the encoder more than [n] bytes. *)
Definition spans_within (n : nat) (cs : list call) : Prop :=
  Forall (fun c => match c with
                   | CompressUpdate _ src => length src <= n
                   | _ => True
                   end) cs.

(** ** Integer conversions

    [CompressAndWrite] keeps [pptr() - pbase()] in a [std::int32_t]
    ([orig_size]), moves [pptr()] back by it and passes it on to
    [LZ4F_compressUpdate] as [srcSize], a [std::size_t]. *)

(** [static_cast<std::int32_t>(z)]: [z] modulo 2^32, read as a signed
    number. *)
Definition int32_cast (z : Z) : Z :=
  ((z + 2 ^ 31) mod 2 ^ 32 - 2 ^ 31)%Z.

(** [orig_size], for a put area of [n] bytes. *)
Definition orig_size (n : nat) : Z := int32_cast (Z.of_nat n).

(** [pptr() - pbase()] after [pbump(-orig_size)]. *)
Definition after_pbump (n : nat) : Z := (Z.of_nat n - orig_size n)%Z.

(** The [srcSize] argument: [orig_size] converted to [std::size_t]. *)
Definition srcSize_arg (n : nat) : Z := (orig_size n mod 2 ^ 64)%Z.

(** A count that a [std::int32_t] holds. *)
Definition fits_int32 (n : nat) : Prop := (Z.of_nat n < 2 ^ 31)%Z.

(** The conversions keep the count: [pbump] leaves the put area empty
    and [srcSize] is the number of bytes that were in it. *)
Definition cast_exact (n : nat) : Prop :=
  after_pbump n = 0%Z /\ srcSize_arg n = Z.of_nat n.

(** Every span of the history was offered to the encoder with its own
    length as [srcSize]. *)
Definition spans_exact (cs : list call) : Prop :=
  Forall (fun c => match c with
                   | CompressUpdate _ src => cast_exact (length src)
                   | _ => True
                   end) cs.

(** The bytes the decoder took over a history of calls, replayed from the
    session [d]: of each span offered, the bytes [LZ4F_decompress]
    reported as consumed; and the session the history leaves.  A call
    that reports an error takes nothing and leaves the session as it
    was. *)
Fixpoint taken {codec : LZ4F} (d : dctx) (cs : list call)
  : list byte * dctx :=
  match cs with
  | [] => ([], d)
  | Decompress dstCapacity src :: cs' =>
      match LZ4F_decompress d dstCapacity src with
      | LZ4F_ok (src_size, _, d') =>
          let (bs, d'') := taken d' cs' in (firstn src_size src ++ bs, d'')
      | LZ4F_error _ => taken d cs'
      end
  | _ :: cs' => taken d cs'
  end.

(** The bytes the bulk reads of a history got from the upstream. *)
Definition read_in (cs : list call) : list byte :=
  flat_map (fun c => match c with SourceRead _ got => got | _ => [] end) cs.

(** A decoder that takes no more than it is offered and produces no more
    than there is room for. *)
Definition decoder_bounded {codec : LZ4F} (dstCapacity : nat) : Prop :=
  forall (d : dctx) (src : list byte),
    match LZ4F_decompress d dstCapacity src with
    | LZ4F_error _ => True
    | LZ4F_ok (src_size, out, _) =>
        src_size <= length src /\ length out <= dstCapacity
    end.

(** An upstream whose [read(buf, n)] stores at most [n] bytes. *)
Definition source_bounded {upstream : ByteSource} : Prop :=
  forall (src : istream) (n : nat), length (fst (istream_read src n)) <= n.

(** ** [basic_ostream<SrcBufSize>::output_buffer] *)

Module Sink.
Section Sink.
Context {codec : LZ4F}.
Variable SrcBufSize : nat.
Local Open Scope cxx_scope.

(** What the adapter acts on: the bytes the [std::ostream] behind
    [m_sink] has received (a [write] appends; the stream's state flags
    are not looked at by the header), and the history of codec calls. *)
Record env : Type := mk_env {
  sink : list byte;
  calls : list call
}.

(** The object.  [put_area] is the content of [m_sourceBuffer] between
    [pbase()] and [pptr()]; [epptr()] is [pbase() + SrcBufSize - 1]
    throughout ([setp] in the constructor).  [m_context] keeps the session
    value after [LZ4F_freeCompressionContext] (the pointer dangles). *)
Record output_buffer : Type := mk_output_buffer {
  put_area : list byte;
  m_context : cctx;
  m_closed : bool
}.

Definition state : Type := (output_buffer * env)%type.

(** A [std::size_t] converted to [char], as the initialiser list of the
    constructor does with the bound (a narrowing conversion, which
    compilers accept with a diagnostic). *)
Definition narrow_to_char (n : nat) : byte :=
  match Byte.of_nat (n mod 256) with
  | Some b => b
  | None => x00
  end.

(** [m_destinationBuffer] as the constructor leaves it.  The member
    initialiser is written with braces,
    [m_destinationBuffer{LZ4F_compressBound(m_sourceBuffer.size(), nullptr)}]:
    for a [std::vector<char>] this is list-initialisation, the
    [initializer_list] constructor is chosen and the vector holds one
    element, the bound narrowed to [char].  It is not a vector of that
    many bytes (parentheses would give that). *)
Definition m_destinationBuffer : list byte :=
  [narrow_to_char (LZ4F_compressBound SrcBufSize)].

(** [m_destinationBuffer.capacity()], the [dstCapacity] of every call on
    the encoder.  The vector is never resized; built from a list of one
    element it has room for that element. *)
Definition destination_capacity : nat := length m_destinationBuffer.

Definition log (c : call) : M state unit :=
  fun '(ob, w) => (Returns tt, (ob, mk_env (sink w) (calls w ++ [c]))).

(** [m_sink.write(m_destinationBuffer.data(), result)] *)
Definition sink_write (bs : list byte) : M state unit :=
  fun '(ob, w) => (Returns tt, (ob, mk_env (sink w ++ bs) (calls w))).

Definition set_context (c : cctx) : M state unit :=
  fun '(ob, w) =>
    (Returns tt, (mk_output_buffer (put_area ob) c (m_closed ob), w)).

Definition not_closed (s : state) : bool := negb (m_closed (fst s)).

(** [pbump(-orig_size)] after reading [pptr() - pbase()]: the put area is
    emptied and its former content is the span handed to the encoder.
    This is what the two statements do when [orig_size], a
    [std::int32_t], holds the length of the put area ([cast_exact]); the
    put area of an adapter with fewer than 2^31 bytes of [m_sourceBuffer]
    is always that short. *)
Definition take_put_area : M state (list byte) :=
  fun '(ob, w) =>
    (Returns (put_area ob),
     (mk_output_buffer [] (m_context ob) (m_closed ob), w)).

Definition get_context : M state cctx :=
  fun s => (Returns (m_context (fst s)), s).

Definition CompressAndWrite : M state unit :=
  assert not_closed ;;
  src <- take_put_area ;;
  ctx <- get_context ;;
  log (CompressUpdate destination_capacity src) ;;
  match LZ4F_compressUpdate ctx destination_capacity src with
  | LZ4F_error code =>
      throw ("LZ4 compression failed: " ++ LZ4F_getErrorName code)%string
  | LZ4F_ok (out, ctx') => set_context ctx' ;; sink_write out
  end.

Definition WriteHeader : M state unit :=
  assert not_closed ;;
  ctx <- get_context ;;
  log (CompressBegin destination_capacity) ;;
  match LZ4F_compressBegin ctx destination_capacity with
  | LZ4F_error code =>
      throw ("Failed to start LZ4 compression: " ++ LZ4F_getErrorName code)%string
  | LZ4F_ok (out, ctx') => set_context ctx' ;; sink_write out
  end.

Definition WriteFooter : M state unit :=
  assert not_closed ;;
  ctx <- get_context ;;
  log (CompressEnd destination_capacity) ;;
  match LZ4F_compressEnd ctx destination_capacity with
  | LZ4F_error code =>
      throw ("Failed to end LZ4 compression: " ++ LZ4F_getErrorName code)%string
  | LZ4F_ok (out, ctx') => set_context ctx' ;; sink_write out
  end.

(** [*pptr() = c; pbump(1)] *)
Definition store (c : byte) : M state unit :=
  fun '(ob, w) =>
    (Returns tt,
     (mk_output_buffer (put_area ob ++ [c]) (m_context ob) (m_closed ob), w)).

(** [pptr() <= epptr()] *)
Definition pptr_le_epptr (s : state) : bool :=
  length (put_area (fst s)) <=? SrcBufSize - 1.

Definition overflow (iCharacter : byte) : M state byte :=
  assert pptr_le_epptr ;;
  store iCharacter ;;
  CompressAndWrite ;;
  ret iCharacter.

Definition sync : M state nat :=
  CompressAndWrite ;;
  ret 0.

Definition set_closed : M state unit :=
  fun '(ob, w) =>
    (Returns tt, (mk_output_buffer (put_area ob) (m_context ob) true, w)).

Definition Close : M state unit :=
  fun s =>
    if m_closed (fst s) then (Returns tt, s)
    else (sync ;;
          WriteFooter ;;
          log FreeCompressionContext ;;
          set_closed) s.

(** [~output_buffer()] *)
Definition destroy : M state unit := Close.

(** The constructor runs in an environment and, when it returns, has
    built the object; when it throws there is no object (and no
    destructor will run). *)
Definition construct : M env output_buffer :=
  fun w =>
    let w1 := mk_env (sink w) (calls w ++ [CreateCompressionContext]) in
    match LZ4F_createCompressionContext with
    | LZ4F_error code =>
        (Throws ("Failed to create LZ4 compression context: "
                   ++ LZ4F_getErrorName code)%string, w1)
    | LZ4F_ok ctx =>
        match WriteHeader (mk_output_buffer [] ctx false, w1) with
        | (Returns _, (ob, w2)) => (Returns ob, w2)
        | (Throws what, (_, w2)) => (Throws what, w2)
        | (Aborts, (_, w2)) => (Aborts, w2)
        end
    end.

(** [std::streambuf::sputc]: store while [pptr() < epptr()], otherwise
    call [overflow]. *)
Definition sputc (c : byte) : M state byte :=
  fun s =>
    if length (put_area (fst s)) <? SrcBufSize - 1
    then (store c ;; ret c) s
    else overflow c s.

(** [std::streambuf::xsputn] (what [std::ostream::write] calls): the
    bytes are put one after the other. *)
Fixpoint xsputn (bs : list byte) : M state unit :=
  match bs with
  | [] => ret tt
  | b :: bs' => sputc b ;; xsputn bs'
  end.

(** [std::ostream::flush] calls [pubsync], which calls [sync]. *)
Definition flush : M state nat := sync.

(** What a caller does with the stream between construction and
    destruction. *)
Inductive request : Type :=
| Put (c : byte)
| Write (bs : list byte)
| Flush
| CloseNow.

Definition perform (r : request) : M state unit :=
  match r with
  | Put c => sputc c ;; ret tt
  | Write bs => xsputn bs
  | Flush => flush ;; ret tt
  | CloseNow => Close
  end.

Fixpoint perform_all (rs : list request) : M state unit :=
  match rs with
  | [] => ret tt
  | r :: rs' => perform r ;; perform_all rs'
  end.

(** The life of one [output_buffer]: construction, the caller's requests
    up to the first that fails, destruction.  A constructor that throws
    leaves no object, so no destructor runs; an exception of a request
    unwinds the scope and the destructor runs; an exception leaving the
    destructor (implicitly [noexcept]) ends in [std::terminate]. *)
Definition lifetime (rs : list request) : M env unit :=
  fun w =>
    match construct w with
    | (Returns ob, w1) =>
        match perform_all rs (ob, w1) with
        | (Aborts, (_, w2)) => (Aborts, w2)
        | (r, s2) =>
            match destroy s2 with
            | (Returns _, (_, w3)) => (r, w3)
            | (_, (_, w3)) => (Aborts, w3)
            end
        end
    | (Throws what, w1) => (Throws what, w1)
    | (Aborts, w1) => (Aborts, w1)
    end.

(** The spans a write is cut into by the put area: [pending] is what
    the put area holds, each span is flushed by [overflow], the second
    component is what stays in the put area. *)
Fixpoint chunk (pending bs : list byte) : list (list byte) * list byte :=
  match bs with
  | [] => ([], pending)
  | b :: bs' =>
      if length pending <? SrcBufSize - 1 then chunk (pending ++ [b]) bs'
      else let (spans, rest) := chunk [] bs' in
           ((pending ++ [b]) :: spans, rest)
  end.

(** Output of the encoder over a sequence of spans, each call given
    [dstCapacity] bytes of room, as [CompressAndWrite] chains the
    calls. *)
Fixpoint compress_updates (dstCapacity : nat) (ctx : cctx)
    (spans : list (list byte)) : option (list byte * cctx) :=
  match spans with
  | [] => Some ([], ctx)
  | src :: spans' =>
      match LZ4F_compressUpdate ctx dstCapacity src with
      | LZ4F_error _ => None
      | LZ4F_ok (out, ctx') =>
          match compress_updates dstCapacity ctx' spans' with
          | Some (outs, ctx'') => Some (out ++ outs, ctx'')
          | None => None
          end
      end
  end.

(** The frame the encoder emits for a sequence of spans when every call
    is given [dstCapacity] bytes of room: header, one update per span,
    footer.  [None] when a call reports an error. *)
Definition compress_frame (dstCapacity : nat) (spans : list (list byte))
  : option (list byte) :=
  match LZ4F_createCompressionContext with
  | LZ4F_error _ => None
  | LZ4F_ok ctx0 =>
      match LZ4F_compressBegin ctx0 dstCapacity with
      | LZ4F_error _ => None
      | LZ4F_ok (header, ctx1) =>
          match compress_updates dstCapacity ctx1 spans with
          | None => None
          | Some (body, ctx2) =>
              match LZ4F_compressEnd ctx2 dstCapacity with
              | LZ4F_error _ => None
              | LZ4F_ok (footer, _) => Some (header ++ body ++ footer)
              end
          end
      end
  end.

(** Calls of [LZ4F_freeCompressionContext] so far, plus one while the
    adapter is still open. *)
Definition owed (s : state) : nat :=
  count is_free_cctx (calls (snd s)) + (if m_closed (fst s) then 0 else 1).

(** The bytes a request hands to the adapter. *)
Definition written_by (r : request) : list byte :=
  match r with
  | Put c => [c]
  | Write bs => bs
  | Flush => []
  | CloseNow => []
  end.

(** What a member function leaves behind when started in [s] with the
    put area within [epptr()]: unless the process aborted, the put area
    is within [epptr()] again; an abort finds the adapter closed; the
    calls it added offered the encoder at most [SrcBufSize] bytes
    each. *)
Definition in_bounds {A : Type} (s : state) (res : outcome A * state)
  : Prop :=
  (fst res <> Aborts ->
   length (put_area (fst (snd res))) <= SrcBufSize - 1) /\
  (fst res = Aborts -> m_closed (fst (snd res)) = true) /\
  exists new : list call,
    calls (snd (snd res)) = calls (snd s) ++ new /\
    spans_within SrcBufSize new.

(** Compressing [S]: construct over an empty sink, write, close. *)
Definition compress (S : list byte) : outcome unit * env :=
  match construct (mk_env [] []) with
  | (Returns ob, w1) =>
      match (xsputn S ;; Close) (ob, w1) with
      | (r, (_, w2)) => (r, w2)
      end
  | (Throws what, w1) => (Throws what, w1)
  | (Aborts, w1) => (Aborts, w1)
  end.

End Sink.
End Sink.

(** ** [basic_istream<SrcBufSize, DestBufSize>::input_buffer] *)

Module Source.
Section Source.
Context {codec : LZ4F} {upstream : ByteSource}.
Variables SrcBufSize DestBufSize : nat.
Local Open Scope cxx_scope.

(** What the adapter acts on: the [std::istream] behind [m_source] and
    the history of calls on it and on the codec. *)
Record env : Type := mk_env {
  source : istream;
  calls : list call
}.

(** The object.  The two [std::array]s are lists of their full size; the
    get area is the part of [destinationBuffer] between the offsets
    [gptr] and [egptr] ([eback()] is not used by the header). *)
Record input_buffer : Type := mk_input_buffer {
  sourceBuffer : list byte;
  destinationBuffer : list byte;
  m_offset : nat;
  m_sourceBufferSize : nat;
  m_context : dctx;
  gptr : nat;
  egptr : nat
}.

Definition state : Type := (input_buffer * env)%type.

(** Storing [bs] at the start of an array. *)
Definition overwrite (bs arr : list byte) : list byte :=
  bs ++ skipn (length bs) arr.

(** The constructor: both offsets zero, a fresh decompression context,
    an empty get area.  The header leaves the arrays uninitialised; no
    byte of them is read before it has been written. *)
Definition construct : M env input_buffer :=
  fun w =>
    let w1 := mk_env (source w) (calls w ++ [CreateDecompressionContext]) in
    match LZ4F_createDecompressionContext with
    | LZ4F_error code =>
        (Throws ("Failed to create LZ4 decompression context: "
                   ++ LZ4F_getErrorName code)%string, w1)
    | LZ4F_ok ctx =>
        (Returns (mk_input_buffer (repeat x00 SrcBufSize)
                    (repeat x00 DestBufSize) 0 0 ctx 0 0), w1)
    end.

(** [~input_buffer()] *)
Definition destroy : M state unit :=
  fun '(ib, w) =>
    (Returns tt,
     (ib, mk_env (source w) (calls w ++ [FreeDecompressionContext]))).

(** The bytes of [sourceBuffer] from [m_offset] up to
    [m_sourceBufferSize]: the span offered to the decoder. *)
Definition unconsumed (ib : input_buffer) : list byte :=
  firstn (m_sourceBufferSize ib - m_offset ib)
         (skipn (m_offset ib) (sourceBuffer ib)).

(** The first statement of the loop body: one bulk read when the span
    is empty. *)
Definition refill : M state unit :=
  fun '(ib, w) =>
    if m_offset ib =? m_sourceBufferSize ib then
      let '(bs, src') := istream_read (source w) SrcBufSize in
      (Returns tt,
       (mk_input_buffer (overwrite bs (sourceBuffer ib))
          (destinationBuffer ib) 0 (length bs) (m_context ib)
          (gptr ib) (egptr ib),
        mk_env src' (calls w ++ [SourceRead SrcBufSize bs])))
    else (Returns tt, (ib, w)).

(** How one pass through the loop body ends, when it does not throw:
    [return traits_type::eof()], or the assignment to [writtenSize]. *)
Inductive pass : Type :=
| ReturnEof
| Written (writtenSize : nat).

(** The rest of the loop body.  [src_size] and [dest_size] go to
    [LZ4F_decompress] by address and come back as the number of bytes
    consumed and produced (the header declares them [const]; the frame
    API writes through both pointers). *)
Definition decode : M state pass :=
  fun '(ib, w) =>
    if m_sourceBufferSize ib =? 0 then (Returns ReturnEof, (ib, w))
    else
      let src := unconsumed ib in
      let w' := mk_env (source w) (calls w ++ [Decompress DestBufSize src]) in
      match LZ4F_decompress (m_context ib) DestBufSize src with
      | LZ4F_error code =>
          (Throws ("LZ4 decompression failed: "
                     ++ LZ4F_getErrorName code)%string, (ib, w'))
      | LZ4F_ok (src_size, out, ctx') =>
          (Returns (Written (length out)),
           (mk_input_buffer (sourceBuffer ib)
              (overwrite out (destinationBuffer ib))
              (m_offset ib + src_size) (m_sourceBufferSize ib) ctx'
              (gptr ib) (egptr ib), w'))
      end.

Definition loop_body : M state pass := refill ;; decode.

(** The state in which the decoder is called: after the conditional
    read. *)
Definition refilled (s : state) : state := snd (refill s).

(** [while (writtenSize == 0) { ... }]: [None] when the fuel is used up
    before the loop is left. *)
Fixpoint pull_loop (fuel : nat) (s : state) : option (outcome pass * state) :=
  match fuel with
  | 0 => None
  | S fuel' =>
      match loop_body s with
      | (Returns (Written 0), s') => pull_loop fuel' s'
      | r => Some r
      end
  end.

(** [setg(dst, dst, dst + writtenSize)] *)
Definition setg (writtenSize : nat) (ib : input_buffer) : input_buffer :=
  mk_input_buffer (sourceBuffer ib) (destinationBuffer ib) (m_offset ib)
    (m_sourceBufferSize ib) (m_context ib) 0 writtenSize.

(** The get area: the bytes between [gptr()] and [egptr()]. *)
Definition get_area (ib : input_buffer) : list byte :=
  firstn (egptr ib - gptr ib) (skipn (gptr ib) (destinationBuffer ib)).

(** [*gptr()] *)
Definition deref_gptr (ib : input_buffer) : byte :=
  nth (gptr ib) (destinationBuffer ib) x00.

(** [underflow]: the result is [None] for [traits_type::eof()]. *)
Definition underflow (fuel : nat) (s : state)
  : option (outcome (option byte) * state) :=
  match pull_loop fuel s with
  | None => None
  | Some (Returns ReturnEof, s') => Some (Returns None, s')
  | Some (Returns (Written n), (ib, w)) =>
      let ib' := setg n ib in
      Some (Returns (Some (deref_gptr ib')), (ib', w))
  | Some (Throws what, s') => Some (Throws what, s')
  | Some (Aborts, s') => Some (Aborts, s')
  end.

(** [gbump(1)] *)
Definition gbump1 (ib : input_buffer) : input_buffer :=
  mk_input_buffer (sourceBuffer ib) (destinationBuffer ib) (m_offset ib)
    (m_sourceBufferSize ib) (m_context ib) (S (gptr ib)) (egptr ib).

(** [std::streambuf::sbumpc]: the next byte of the get area, or
    [uflow()], which calls [underflow] and then advances [gptr]. *)
Definition sbumpc (fuel : nat) (s : state)
  : option (outcome (option byte) * state) :=
  let '(ib, w) := s in
  if gptr ib <? egptr ib
  then Some (Returns (Some (deref_gptr ib)), (gbump1 ib, w))
  else
    match underflow fuel s with
    | Some (Returns (Some c), (ib', w')) =>
        Some (Returns (Some c), (gbump1 ib', w'))
    | r => r
    end.

(** Reading until end of stream, one [sbumpc] per byte ([n] bounds the
    number of calls, [fuel] each pull loop). *)
Fixpoint read_all (fuel n : nat) (s : state)
  : option (outcome (list byte) * state) :=
  match n with
  | 0 => None
  | S n' =>
      match sbumpc fuel s with
      | None => None
      | Some (Returns None, s') => Some (Returns [], s')
      | Some (Returns (Some c), s') =>
          match read_all fuel n' s' with
          | Some (Returns bs, s'') => Some (Returns (c :: bs), s'')
          | r => r
          end
      | Some (Throws what, s') => Some (Throws what, s')
      | Some (Aborts, s') => Some (Aborts, s')
      end
  end.

(** Bounds of the spec's data model:
    [read_offset <= read_limit <= capacity(raw_in_buffer)]. *)
Definition wf (ib : input_buffer) : Prop :=
  length (sourceBuffer ib) = SrcBufSize /\
  m_offset ib <= m_sourceBufferSize ib /\
  m_sourceBufferSize ib <= SrcBufSize.

(** The pull loop run [k] more passes: the state from which pass [k+1]
    starts, when every pass before it assigned [writtenSize = 0]. *)
Fixpoint after_passes (k : nat) (s : state) : option state :=
  match k with
  | 0 => Some s
  | S k' =>
      match loop_body s with
      | (Returns (Written 0), s') => after_passes k' s'
      | _ => None
      end
  end.

(** The reading of "end of stream is permanent" under which the adapter
    goes back to the upstream no more: after an [underflow] that returned
    [eof()] with nothing unconsumed and the get area used up, a read
    returns end of stream and the number of upstream reads is what it
    was. *)
Definition eof_without_further_reads : Prop :=
  forall (fuel : nat) (s s1 : state),
    underflow fuel s = Some (Returns None, s1) ->
    m_offset (fst s1) = m_sourceBufferSize (fst s1) ->
    egptr (fst s1) <= gptr (fst s1) ->
    forall (fuel' : nat) r (s2 : state),
      sbumpc fuel' s1 = Some (r, s2) ->
      r = Returns None /\
      count is_source_read (calls (snd s2))
        = count is_source_read (calls (snd s1)).

(** What is still to go through the decoder: the unconsumed span, then
    what the upstream holds. *)
Definition pending (content : istream -> list byte) (s : state)
  : list byte :=
  unconsumed (fst s) ++ content (source (snd s)).

(** The bounds of the object: [wf], both arrays of their declared size,
    and the get area inside [destinationBuffer]. *)
Definition inv (ib : input_buffer) : Prop :=
  wf ib /\
  length (destinationBuffer ib) = DestBufSize /\
  gptr ib <= egptr ib /\
  egptr ib <= DestBufSize.

(** The calls the adapter makes while reading: a bulk read asks for the
    whole of [sourceBuffer]; the decoder gets a non-empty span that lies
    inside [sourceBuffer], with the whole of [destinationBuffer] as
    room. *)
Definition orderly (c : call) : Prop :=
  match c with
  | SourceRead n got => n = SrcBufSize /\ length got <= SrcBufSize
  | Decompress dstCapacity src =>
      dstCapacity = DestBufSize /\ src <> [] /\ length src <= SrcBufSize
  | _ => False
  end.

(** How a later state relates to an earlier one: the bounds hold and the
    calls added are orderly. *)
Definition follows (s s' : state) : Prop :=
  inv (fst s') /\
  exists new : list call,
    calls (snd s') = calls (snd s) ++ new /\ Forall orderly new.

(** How the bytes moved between two states: the calls added read
    [read_in new] from the upstream, which holds the rest; the unconsumed
    span followed by the bytes read is what the decoder took, replayed
    from the session of [s], followed by the span still unconsumed; the
    replay ends in the session of [s']. *)
Definition feeds (content : istream -> list byte) (s s' : state) : Prop :=
  exists (new : list call) (took : list byte),
    calls (snd s') = calls (snd s) ++ new /\
    taken (m_context (fst s)) new = (took, m_context (fst s')) /\
    unconsumed (fst s) ++ read_in new = took ++ unconsumed (fst s') /\
    content (source (snd s)) = read_in new ++ content (source (snd s')).

(** [std::streambuf::sgetn] (what [std::istream::read] calls): up to [n]
    bytes, as if by repeated [sbumpc], stopping at end of stream. *)
Fixpoint sgetn (fuel n : nat) (s : state)
  : option (outcome (list byte) * state) :=
  match n with
  | 0 => Some (Returns [], s)
  | S n' =>
      match sbumpc fuel s with
      | None => None
      | Some (Returns None, s') => Some (Returns [], s')
      | Some (Returns (Some c), s') =>
          match sgetn fuel n' s' with
          | Some (Returns bs, s'') => Some (Returns (c :: bs), s'')
          | r => r
          end
      | Some (Throws what, s') => Some (Throws what, s')
      | Some (Aborts, s') => Some (Aborts, s')
      end
  end.

(** Calls of [LZ4F_freeDecompressionContext] so far. *)
Definition frees (s : state) : nat := count is_free_dctx (calls (snd s)).

(** The life of one [input_buffer]: construction, reading to the end,
    destruction. *)
Definition lifetime (fuel n : nat) (w : env)
  : option (outcome (list byte) * env) :=
  match construct w with
  | (Returns ib, w1) =>
      match read_all fuel n (ib, w1) with
      | None => None
      | Some (r, s2) => Some (r, snd (snd (destroy s2)))
      end
  | (Throws what, w1) => Some (Throws what, w1)
  | (Aborts, w1) => Some (Aborts, w1)
  end.

End Source.
End Source.

(** ** What the round trip asks of the codec

    [decodes d z s]: a decoder session in state [d] that is still to be
    given the bytes [z] of a frame is still to produce [s].  Given
    [dstCapacity] bytes of room in every call, the encoder accepts spans
    of at most [SrcBufSize] bytes; every frame it emits is accepted from
    a fresh session and stands for the concatenation of the spans;
    offered any non-empty prefix of what remains, the decoder takes some
    of it and produces the next bytes, advancing in one or the other;
    when nothing remains of the frame nothing remains to be produced.

    The contract of the specification is the one at
    [dstCapacity = LZ4F_compressBound SrcBufSize]; the adapter relies on
    the one at [dstCapacity = Sink.destination_capacity SrcBufSize]. *)
Record codec_contract {codec : LZ4F} (dstCapacity SrcBufSize DestBufSize : nat)
    (decodes : dctx -> list byte -> list byte -> Prop) : Prop := {
  encoder_accepts :
    forall spans : list (list byte),
      Forall (fun src => length src <= SrcBufSize) spans ->
      Sink.compress_frame dstCapacity spans <> None;
  decoder_begins :
    exists d0 : dctx,
      LZ4F_createDecompressionContext = LZ4F_ok d0 /\
      forall (spans : list (list byte)) (Z : list byte),
        Sink.compress_frame dstCapacity spans = Some Z ->
        decodes d0 Z (concat spans);
  decoder_steps :
    forall (d : dctx) (z s src rest : list byte),
      decodes d z s ->
      z = src ++ rest ->
      src <> [] ->
      exists (src_size : nat) (out : list byte) (d' : dctx),
        LZ4F_decompress d DestBufSize src = LZ4F_ok (src_size, out, d') /\
        src_size <= length src /\
        (0 < src_size \/ out <> []) /\
        exists s', s = out ++ s' /\ decodes d' (skipn src_size z) s';
  decoder_ends :
    forall (d : dctx) (s : list byte), decodes d [] s -> s = []
}.

(** ** Concrete collaborators

    A small frame codec and an in-memory stream, on which the adapters
    run by computation. *)

Module Toy.

Inductive toy_error : Type :=
| dstMaxSize_tooSmall
| frameType_unknown
| GENERIC.

Definition toy_error_name (e : toy_error) : string :=
  match e with
  | dstMaxSize_tooSmall => "ERROR_dstMaxSize_tooSmall"
  | frameType_unknown => "ERROR_frameType_unknown"
  | GENERIC => "ERROR_GENERIC"
  end.

Inductive cstage : Type := CFresh | CBegun | CEnded.
Inductive dstage : Type := DHeader | DToken | DLiteral | DEnd.

Definition magic : byte := x4c.
Definition tok_literal : byte := x01.
Definition tok_end : byte := x00.

Definition literal (b : byte) : list byte := [tok_literal; b].

Definition toy_begin (c : cstage) (cap : nat)
  : lz4f_result toy_error (list byte * cstage) :=
  match c with
  | CFresh =>
      if cap <? 1 then LZ4F_error dstMaxSize_tooSmall
      else LZ4F_ok ([magic], CBegun)
  | _ => LZ4F_error GENERIC
  end.

Definition toy_update (c : cstage) (cap : nat) (src : list byte)
  : lz4f_result toy_error (list byte * cstage) :=
  match c with
  | CBegun =>
      if cap <? 2 * length src then LZ4F_error dstMaxSize_tooSmall
      else LZ4F_ok (flat_map literal src, CBegun)
  | _ => LZ4F_error GENERIC
  end.

(** The end mark is one byte, but room for two is demanded. *)
Definition toy_end (c : cstage) (cap : nat)
  : lz4f_result toy_error (list byte * cstage) :=
  match c with
  | CBegun =>
      if cap <? 2 then LZ4F_error dstMaxSize_tooSmall
      else LZ4F_ok ([tok_end], CEnded)
  | _ => LZ4F_error GENERIC
  end.

(** One call handles one byte of the frame; a literal needs room for one
    byte of output.  Bytes after the end mark are an error. *)
Definition toy_decompress (d : dstage) (cap : nat) (src : list byte)
  : lz4f_result toy_error (nat * list byte * dstage) :=
  match src with
  | [] => LZ4F_ok (0, [], d)
  | b :: _ =>
      match d with
      | DHeader =>
          if Byte.eqb b magic then LZ4F_ok (1, [], DToken)
          else LZ4F_error frameType_unknown
      | DToken =>
          if Byte.eqb b tok_literal then LZ4F_ok (1, [], DLiteral)
          else if Byte.eqb b tok_end then LZ4F_ok (1, [], DEnd)
          else LZ4F_error GENERIC
      | DLiteral =>
          if cap =? 0 then LZ4F_ok (0, [], DLiteral)
          else LZ4F_ok (1, [b], DToken)
      | DEnd => LZ4F_error GENERIC
      end
  end.

(** The codec, for a given [LZ4F_compressBound]. *)
Definition codec (bound : nat -> nat) : LZ4F := {|
  errcode := toy_error;
  cctx := cstage;
  dctx := dstage;
  LZ4F_getErrorName := toy_error_name;
  LZ4F_compressBound := bound;
  LZ4F_createCompressionContext := LZ4F_ok CFresh;
  LZ4F_compressBegin := toy_begin;
  LZ4F_compressUpdate := toy_update;
  LZ4F_compressEnd := toy_end;
  LZ4F_createDecompressionContext := LZ4F_ok DHeader;
  LZ4F_decompress := toy_decompress
|}.

Definition bound (n : nat) : nat := 2 * n + 1.

(** What the decoder will have produced once the rest of the frame has
    gone through it. *)
Fixpoint denote (d : dstage) (z : list byte) : option (list byte) :=
  match z with
  | [] => match d with DEnd => Some [] | _ => None end
  | b :: z' =>
      match d with
      | DHeader => if Byte.eqb b magic then denote DToken z' else None
      | DToken =>
          if Byte.eqb b tok_literal then denote DLiteral z'
          else if Byte.eqb b tok_end then denote DEnd z'
          else None
      | DLiteral => option_map (cons b) (denote DToken z')
      | DEnd => None
      end
  end.

(** A [std::istringstream]: [read] takes what is left, up to [n]. *)
Definition memory : ByteSource := {|
  istream := list byte;
  istream_read := fun s n => (firstn n s, skipn n s)
|}.

(** A stream that hands out at most one byte per [read]. *)
Definition trickle : ByteSource := {|
  istream := list byte;
  istream_read := fun s n => (firstn (Nat.min n 1) s, skipn (Nat.min n 1) s)
|}.

(** The same codec wanting room for two bytes before it writes its
    header of one (liblz4 wants room for the largest header it can
    write), and the same codec declaring a bound of one byte. *)
Definition cramped : LZ4F := {|
  errcode := toy_error;
  cctx := cstage;
  dctx := dstage;
  LZ4F_getErrorName := toy_error_name;
  LZ4F_compressBound := bound;
  LZ4F_createCompressionContext := LZ4F_ok CFresh;
  LZ4F_compressBegin :=
    fun c cap =>
      if cap <? 2 then LZ4F_error dstMaxSize_tooSmall else toy_begin c cap;
  LZ4F_compressUpdate := toy_update;
  LZ4F_compressEnd := toy_end;
  LZ4F_createDecompressionContext := LZ4F_ok DHeader;
  LZ4F_decompress := toy_decompress
|}.
Definition tight : LZ4F := codec (fun _ => 1).

(** A codec that stores: the frame is the header byte, the bytes of the
    spans as they are, and an end mark of one byte.  A span of one byte
    fits a destination of one byte.  The decoder cannot tell the end mark
    from a stored byte when it sees it, so it holds every byte back until
    the next one arrives; the byte it holds when the frame is over is the
    end mark. *)
Inductive sdstage : Type := SHeader | SFirst | SHold (held : byte).

Definition stored_update (c : cstage) (cap : nat) (src : list byte)
  : lz4f_result toy_error (list byte * cstage) :=
  match c with
  | CBegun =>
      if cap <? length src then LZ4F_error dstMaxSize_tooSmall
      else LZ4F_ok (src, CBegun)
  | _ => LZ4F_error GENERIC
  end.

Definition stored_end (c : cstage) (cap : nat)
  : lz4f_result toy_error (list byte * cstage) :=
  match c with
  | CBegun =>
      if cap <? 1 then LZ4F_error dstMaxSize_tooSmall
      else LZ4F_ok ([tok_end], CEnded)
  | _ => LZ4F_error GENERIC
  end.

Definition stored_decompress (d : sdstage) (cap : nat) (src : list byte)
  : lz4f_result toy_error (nat * list byte * sdstage) :=
  match src with
  | [] => LZ4F_ok (0, [], d)
  | b :: _ =>
      match d with
      | SHeader =>
          if Byte.eqb b magic then LZ4F_ok (1, [], SFirst)
          else LZ4F_error frameType_unknown
      | SFirst => LZ4F_ok (1, [], SHold b)
      | SHold a =>
          if cap =? 0 then LZ4F_ok (0, [], SHold a)
          else LZ4F_ok (1, [a], SHold b)
      end
  end.

Definition stored : LZ4F := {|
  errcode := toy_error;
  cctx := cstage;
  dctx := sdstage;
  LZ4F_getErrorName := toy_error_name;
  LZ4F_compressBound := fun n => Nat.max n 1;
  LZ4F_createCompressionContext := LZ4F_ok CFresh;
  LZ4F_compressBegin := toy_begin;
  LZ4F_compressUpdate := stored_update;
  LZ4F_compressEnd := stored_end;
  LZ4F_createDecompressionContext := LZ4F_ok SHeader;
  LZ4F_decompress := stored_decompress
|}.


Definition toy_decodes (d : dstage) (z s : list byte) : Prop :=
  denote d z = Some s.

(** Sample data: seven bytes, and the state of an [output_buffer<3>]
    after construction over an empty sink. *)
Definition sample : list byte := [x61; x62; x63; x64; x65; x66; x67].

Definition fresh : Sink.env := Sink.mk_env [] [].

Definition opened : Sink.state (codec := codec bound) :=
  (Sink.mk_output_buffer (codec := codec bound) [] CBegun false,
   Sink.mk_env [magic] [CreateCompressionContext; CompressBegin 1]).

(** An [output_buffer<3>] over the storing codec: as constructed,
    holding one byte, and after [Close]. *)
Definition ready : Sink.state (codec := stored) :=
  (Sink.mk_output_buffer (codec := stored) [] CBegun false,
   Sink.mk_env [magic] [CreateCompressionContext; CompressBegin 1]).

Definition holding : Sink.state (codec := stored) :=
  (Sink.mk_output_buffer (codec := stored) [x61] CBegun false, snd ready).

Definition closed : Sink.state (codec := stored) :=
  (Sink.mk_output_buffer (codec := stored) [] CEnded true,
   Sink.mk_env [magic; x61; tok_end]
     [CreateCompressionContext; CompressBegin 1; CompressUpdate 1 [x61];
      CompressEnd 1; FreeCompressionContext]).

(** An [input_buffer<4, DestBufSize>] as constructed, over a stream
    holding [bytes]. *)
Definition reader (DestBufSize : nat) (bytes : list byte)
  : Source.state (codec := codec bound) (upstream := memory) :=
  (Source.mk_input_buffer (codec := codec bound)
     (repeat x00 4) (repeat x00 DestBufSize) 0 0 DHeader 0 0,
   Source.mk_env (upstream := memory) bytes [CreateDecompressionContext]).

(** The reader in the middle of a literal: one byte unconsumed, the
    token before it taken. *)
Definition mid_literal (DestBufSize : nat)
  : Source.state (codec := codec bound) (upstream := memory) :=
  (Source.mk_input_buffer (codec := codec bound)
     [magic; tok_literal; x61; x00] (repeat x00 DestBufSize) 2 3 DLiteral 0 0,
   Source.mk_env (upstream := memory) [] [CreateDecompressionContext]).

(** A codec that cannot create a context. *)
Definition exhausted : LZ4F := {|
  errcode := toy_error;
  cctx := cstage;
  dctx := dstage;
  LZ4F_getErrorName := toy_error_name;
  LZ4F_compressBound := bound;
  LZ4F_createCompressionContext := LZ4F_error GENERIC;
  LZ4F_compressBegin := toy_begin;
  LZ4F_compressUpdate := toy_update;
  LZ4F_compressEnd := toy_end;
  LZ4F_createDecompressionContext := LZ4F_error GENERIC;
  LZ4F_decompress := toy_decompress
|}.

(** The frame of [sample] in the literal codec, and requests that write
    [sample], flush and put one more byte. *)
Definition sample_frame : list byte :=
  magic :: flat_map literal sample ++ [tok_end].

Definition unclosed : list (Sink.request) :=
  [Sink.Write sample; Sink.Flush; Sink.Put x61].

(** The reader over an empty stream after [k] bulk reads. *)
Definition at_eof (k : nat)
  : Source.state (codec := codec bound) (upstream := memory) :=
  (fst (reader 2 []),
   Source.mk_env (upstream := memory) []
     (CreateDecompressionContext :: repeat (SourceRead 4 []) k)).

(** A stream whose second byte is no token. *)
Definition garbled : list byte := [magic; x07].

(** The reader over a frame of one literal, its four bytes read in one
    bulk read and the header byte taken. *)
Definition past_header
  : Source.state (codec := codec bound) (upstream := memory) :=
  (Source.mk_input_buffer (codec := codec bound)
     [magic; tok_literal; x61; tok_end] (repeat x00 2) 1 4 DToken 0 0,
   Source.mk_env (upstream := memory) []
     [CreateDecompressionContext;
      SourceRead 4 [magic; tok_literal; x61; tok_end];
      Decompress 2 [magic; tok_literal; x61; tok_end]]).

End Toy.

(** * Properties *)

Lemma count_app (p : call -> bool) (l l' : list call) :
  count p (l ++ l') = count p l + count p l'.
Proof. unfold count. now rewrite filter_app, length_app. Qed.

(** ** The conversions of [CompressAndWrite] *)

(** Below 2^31 the cast to [std::int32_t] keeps the count, and only
    there. *)
Lemma cast_exact_of_fits (n : nat) : fits_int32 n -> cast_exact n.
Proof.
  unfold fits_int32, cast_exact, after_pbump, srcSize_arg, orig_size,
    int32_cast.
  intros H.
  rewrite (Z.mod_small (Z.of_nat n + 2 ^ 31) (2 ^ 32)) by lia.
  split; [lia|].
  replace (Z.of_nat n + 2 ^ 31 - 2 ^ 31)%Z with (Z.of_nat n) by lia.
  apply Z.mod_small. lia.
Qed.

Lemma fits_of_cast_exact (n : nat) : cast_exact n -> fits_int32 n.
Proof.
  unfold fits_int32, cast_exact, after_pbump, orig_size, int32_cast.
  intros [H _].
  pose proof (Z.mod_pos_bound (Z.of_nat n + 2 ^ 31) (2 ^ 32) ltac:(lia)).
  lia.
Qed.

Lemma spans_within_exact (n : nat) (cs : list call) :
  fits_int32 n -> spans_within n cs -> spans_exact cs.
Proof.
  intros Hn H. unfold spans_exact. induction H as [|c cs Hc _ IH];
    constructor; [|exact IH].
  destruct c; try exact I.
  apply cast_exact_of_fits. unfold fits_int32 in *. lia.
Qed.

(** ** The compressing sink adapter *)

Section SinkFacts.
Context {codec : LZ4F}.
Variable SrcBufSize : nat.
Import Sink.

Abbreviation cap := (destination_capacity SrcBufSize).

Ltac run :=
  unfold CompressAndWrite, WriteHeader, WriteFooter, overflow, sync, flush,
    bind, ret, throw, assert, log, sink_write, set_context, take_put_area,
    get_context, store, set_closed, not_closed, pptr_le_epptr; simpl.

(** [CompressAndWrite] on an open adapter, by the encoder's answer. *)
Lemma CompressAndWrite_open (ob : output_buffer) (w : env) :
  m_closed ob = false ->
  CompressAndWrite SrcBufSize (ob, w) =
  let w1 := mk_env (sink w)
              (calls w ++ [CompressUpdate cap (put_area ob)]) in
  match LZ4F_compressUpdate (m_context ob) cap (put_area ob) with
  | LZ4F_error code =>
      (Throws ("LZ4 compression failed: " ++ LZ4F_getErrorName code)%string,
       (mk_output_buffer [] (m_context ob) false, w1))
  | LZ4F_ok (out, ctx') =>
      (Returns tt,
       (mk_output_buffer [] ctx' false, mk_env (sink w ++ out) (calls w1)))
  end.
Proof.
  intros Hc. destruct ob as [pa ctx cl]; simpl in *; subst cl.
  run. destruct (LZ4F_compressUpdate ctx cap pa) as [code|[out ctx']];
    reflexivity.
Qed.

Lemma CompressAndWrite_closed (ob : output_buffer) (w : env) :
  m_closed ob = true ->
  CompressAndWrite SrcBufSize (ob, w) = (Aborts, (ob, w)).
Proof. intros Hc. run. now rewrite Hc. Qed.

Lemma WriteFooter_open (ob : output_buffer) (w : env) :
  m_closed ob = false ->
  WriteFooter SrcBufSize (ob, w) =
  let w1 := mk_env (sink w) (calls w ++ [CompressEnd cap]) in
  match LZ4F_compressEnd (m_context ob) cap with
  | LZ4F_error code =>
      (Throws ("Failed to end LZ4 compression: "
                 ++ LZ4F_getErrorName code)%string, (ob, w1))
  | LZ4F_ok (out, ctx') =>
      (Returns tt,
       (mk_output_buffer (put_area ob) ctx' false,
        mk_env (sink w ++ out) (calls w1)))
  end.
Proof.
  intros Hc. destruct ob as [pa ctx cl]; simpl in *; subst cl.
  run. destruct (LZ4F_compressEnd ctx cap) as [code|[out ctx']]; reflexivity.
Qed.

Lemma WriteHeader_open (ob : output_buffer) (w : env) :
  m_closed ob = false ->
  WriteHeader SrcBufSize (ob, w) =
  let w1 := mk_env (sink w) (calls w ++ [CompressBegin cap]) in
  match LZ4F_compressBegin (m_context ob) cap with
  | LZ4F_error code =>
      (Throws ("Failed to start LZ4 compression: "
                 ++ LZ4F_getErrorName code)%string, (ob, w1))
  | LZ4F_ok (out, ctx') =>
      (Returns tt,
       (mk_output_buffer (put_area ob) ctx' false,
        mk_env (sink w ++ out) (calls w1)))
  end.
Proof.
  intros Hc. destruct ob as [pa ctx cl]; simpl in *; subst cl.
  run. destruct (LZ4F_compressBegin ctx cap) as [code|[out ctx']]; reflexivity.
Qed.

(** The constructor, by the answers of the encoder. *)
Lemma construct_cases (w : env) :
  construct SrcBufSize w =
  let w1 := mk_env (sink w) (calls w ++ [CreateCompressionContext]) in
  match LZ4F_createCompressionContext with
  | LZ4F_error code =>
      (Throws ("Failed to create LZ4 compression context: "
                 ++ LZ4F_getErrorName code)%string, w1)
  | LZ4F_ok ctx0 =>
      let w2 := mk_env (sink w) (calls w1 ++ [CompressBegin cap]) in
      match LZ4F_compressBegin ctx0 cap with
      | LZ4F_error code =>
          (Throws ("Failed to start LZ4 compression: "
                     ++ LZ4F_getErrorName code)%string, w2)
      | LZ4F_ok (header, ctx1) =>
          (Returns (mk_output_buffer [] ctx1 false),
           mk_env (sink w ++ header) (calls w2))
      end
  end.
Proof.
  unfold construct.
  destruct LZ4F_createCompressionContext as [code|ctx0]; [reflexivity|].
  rewrite WriteHeader_open by reflexivity. simpl.
  destruct (LZ4F_compressBegin ctx0 cap) as [code|[header ctx1]]; reflexivity.
Qed.

(** While there is room before [epptr()] a byte is only stored: the
    encoder and the sink are not touched, and [m_closed] is not looked
    at. *)
Lemma sputc_room (c : byte) (ob : output_buffer) (w : env) :
  length (put_area ob) < SrcBufSize - 1 ->
  sputc SrcBufSize c (ob, w) =
  (Returns c,
   (mk_output_buffer (put_area ob ++ [c]) (m_context ob) (m_closed ob), w)).
Proof.
  intros Hl. unfold sputc. simpl.
  apply Nat.ltb_lt in Hl. rewrite Hl. reflexivity.
Qed.

(** The byte that finds the put area full goes through [overflow]: it is
    stored behind [epptr()] and the whole array is compressed. *)
Lemma sputc_full (c : byte) (ob : output_buffer) (w : env) :
  length (put_area ob) = SrcBufSize - 1 ->
  sputc SrcBufSize c (ob, w) =
  match CompressAndWrite SrcBufSize
          (mk_output_buffer (put_area ob ++ [c]) (m_context ob) (m_closed ob),
           w) with
  | (Returns _, s) => (Returns c, s)
  | (Throws what, s) => (Throws what, s)
  | (Aborts, s) => (Aborts, s)
  end.
Proof.
  intros Hl. unfold sputc. simpl.
  rewrite Hl, Nat.ltb_irrefl.
  unfold overflow, bind, assert, pptr_le_epptr, store, ret. simpl.
  rewrite Hl, Nat.leb_refl.
  destruct (CompressAndWrite _ _) as [[[]| |] ?]; reflexivity.
Qed.

Lemma xsputn_room (bs : list byte) :
  forall (ob : output_buffer) (w : env),
    length (put_area ob) + length bs <= SrcBufSize - 1 ->
    xsputn SrcBufSize bs (ob, w) =
    (Returns tt,
     (mk_output_buffer (put_area ob ++ bs) (m_context ob) (m_closed ob), w)).
Proof.
  induction bs as [|b bs IH]; intros ob w Hl; simpl in *.
  - rewrite app_nil_r. destruct ob; reflexivity.
  - unfold bind. rewrite sputc_room by lia.
    rewrite IH; simpl.
    + now rewrite <- app_assoc.
    + rewrite length_app. simpl. lia.
Qed.

Lemma Close_closed (s : state) :
  m_closed (fst s) = true -> Close SrcBufSize s = (Returns tt, s).
Proof. intros Hc. unfold Close. now rewrite Hc. Qed.

(** [Close] on an open adapter, by the answers of the encoder. *)
Lemma Close_open (ob : output_buffer) (w : env) :
  m_closed ob = false ->
  Close SrcBufSize (ob, w) =
  let w1 := mk_env (sink w)
              (calls w ++ [CompressUpdate cap (put_area ob)]) in
  match LZ4F_compressUpdate (m_context ob) cap (put_area ob) with
  | LZ4F_error code =>
      (Throws ("LZ4 compression failed: " ++ LZ4F_getErrorName code)%string,
       (mk_output_buffer [] (m_context ob) false, w1))
  | LZ4F_ok (out, ctx1) =>
      let w2 := mk_env (sink w ++ out) (calls w1 ++ [CompressEnd cap]) in
      match LZ4F_compressEnd ctx1 cap with
      | LZ4F_error code =>
          (Throws ("Failed to end LZ4 compression: "
                     ++ LZ4F_getErrorName code)%string,
           (mk_output_buffer [] ctx1 false, w2))
      | LZ4F_ok (footer, ctx2) =>
          (Returns tt,
           (mk_output_buffer [] ctx2 true,
            mk_env (sink w ++ out ++ footer)
              (calls w2 ++ [FreeCompressionContext])))
      end
  end.
Proof.
  intros Hc. unfold Close. simpl. rewrite Hc.
  unfold sync. unfold bind at 1 2. rewrite CompressAndWrite_open by exact Hc.
  simpl.
  destruct (LZ4F_compressUpdate (m_context ob) cap (put_area ob))
    as [code|[out ctx1]]; [reflexivity|].
  unfold ret, bind. rewrite WriteFooter_open by reflexivity. simpl.
  destruct (LZ4F_compressEnd ctx1 cap) as [code|[footer ctx2]];
    [reflexivity|].
  unfold log, set_closed. simpl. now rewrite app_assoc.
Qed.

Lemma perform_all_close_closed (n : nat) (s : state) :
  m_closed (fst s) = true ->
  perform_all SrcBufSize (repeat CloseNow n) s = (Returns tt, s).
Proof.
  intros Hc. induction n as [|n IH]; simpl; [reflexivity|].
  unfold bind. rewrite Close_closed by exact Hc. exact IH.
Qed.

(** C2. Header first: when the constructor returns, the sink holds what it
    held before followed by exactly the bytes [LZ4F_compressBegin]
    produced; no byte has been accepted (the put area is empty, no
    [LZ4F_compressUpdate] was called) and the adapter is open.  Nothing
    in this depends on what is written afterwards. *)
Theorem header_first (w : env) (ob : output_buffer) (w' : env) :
  construct SrcBufSize w = (Returns ob, w') ->
  exists ctx0 header,
    LZ4F_createCompressionContext = LZ4F_ok ctx0 /\
    LZ4F_compressBegin ctx0 cap = LZ4F_ok (header, m_context ob) /\
    sink w' = sink w ++ header /\
    calls w' = calls w ++ [CreateCompressionContext; CompressBegin cap] /\
    put_area ob = [] /\
    m_closed ob = false.
Proof.
  rewrite construct_cases. simpl.
  destruct LZ4F_createCompressionContext as [code|ctx0]; [discriminate|].
  destruct (LZ4F_compressBegin ctx0 cap) as [code|[header ctx1]] eqn:Hb;
    [discriminate|].
  intros H. injection H as <- <-. exists ctx0, header. simpl.
  rewrite <- app_assoc. repeat split; assumption.
Qed.

(** C3. Idempotent close: a first [Close] that returns has flushed the put
    area through [LZ4F_compressUpdate], written the bytes of
    [LZ4F_compressEnd] to the sink, freed the context and set
    [m_closed]; it called [LZ4F_compressEnd] once.  Any number of further
    calls, the destructor's included, return without changing the sink
    or calling the codec. *)
Theorem close_idempotent (ob : output_buffer) (w : env) (s' : state) :
  m_closed ob = false ->
  Close SrcBufSize (ob, w) = (Returns tt, s') ->
  (exists out ctx1 footer ctx2,
      LZ4F_compressUpdate (m_context ob) cap (put_area ob)
        = LZ4F_ok (out, ctx1) /\
      LZ4F_compressEnd ctx1 cap = LZ4F_ok (footer, ctx2) /\
      sink (snd s') = sink w ++ out ++ footer /\
      calls (snd s') =
        calls w ++ [CompressUpdate cap (put_area ob); CompressEnd cap;
                    FreeCompressionContext] /\
      count is_compress_end (calls (snd s'))
        = count is_compress_end (calls w) + 1 /\
      m_closed (fst s') = true) /\
  Close SrcBufSize s' = (Returns tt, s') /\
  destroy SrcBufSize s' = (Returns tt, s') /\
  (forall n, perform_all SrcBufSize (repeat CloseNow (S n)) (ob, w)
             = (Returns tt, s')).
Proof.
  intros Hc H. pose proof H as H0. rewrite Close_open in H by exact Hc.
  simpl in H.
  destruct (LZ4F_compressUpdate (m_context ob) cap (put_area ob))
    as [code|[out ctx1]] eqn:Hu; [discriminate|].
  destruct (LZ4F_compressEnd ctx1 cap) as [code|[footer ctx2]] eqn:He;
    [discriminate|].
  injection H as <-. simpl.
  split; [|split; [|split]].
  - exists out, ctx1, footer, ctx2.
    repeat split; try assumption; try reflexivity.
    + now rewrite <- !app_assoc.
    + rewrite <- !app_assoc, count_app. reflexivity.
  - now apply Close_closed.
  - now apply Close_closed.
  - intros n. simpl. unfold bind. rewrite H0.
    now apply perform_all_close_closed.
Qed.

(** C8. The flush boundary, for a raw buffer of fewer than 2^31 bytes
    (so that [orig_size] holds the number of buffered bytes): on an open
    adapter with an empty put area, [SrcBufSize - 1] bytes are buffered
    without any call to the encoder or any byte written to the sink; the
    next byte makes exactly one call of [LZ4F_compressUpdate], over all
    [SrcBufSize] bytes, that byte included, with [srcSize = SrcBufSize],
    and the encoder's output goes to the sink. *)
Theorem flush_at_capacity (ob : output_buffer) (w : env)
    (bs : list byte) (c : byte) :
  0 < SrcBufSize ->
  fits_int32 SrcBufSize ->
  m_closed ob = false ->
  put_area ob = [] ->
  length bs = SrcBufSize - 1 ->
  let full := (mk_output_buffer bs (m_context ob) false, w) in
  let w1 := mk_env (sink w) (calls w ++ [CompressUpdate cap (bs ++ [c])]) in
  xsputn SrcBufSize bs (ob, w) = (Returns tt, full) /\
  length (bs ++ [c]) = SrcBufSize /\
  srcSize_arg (length (bs ++ [c])) = Z.of_nat SrcBufSize /\
  after_pbump (length (bs ++ [c])) = 0%Z /\
  sputc SrcBufSize c full =
  match LZ4F_compressUpdate (m_context ob) cap (bs ++ [c]) with
  | LZ4F_error code =>
      (Throws ("LZ4 compression failed: " ++ LZ4F_getErrorName code)%string,
       (mk_output_buffer [] (m_context ob) false, w1))
  | LZ4F_ok (out, ctx') =>
      (Returns c,
       (mk_output_buffer [] ctx' false, mk_env (sink w ++ out) (calls w1)))
  end.
Proof.
  intros Hpos Hfit Hc Hp Hl. simpl.
  assert (Hfull : length (bs ++ [c]) = SrcBufSize)
    by (rewrite length_app; simpl; lia).
  destruct (cast_exact_of_fits SrcBufSize Hfit) as [Hbump Hsize].
  split; [|split; [|split; [|split]]].
  - rewrite xsputn_room by (rewrite Hp; simpl; lia).
    now rewrite Hp, Hc.
  - exact Hfull.
  - now rewrite Hfull.
  - now rewrite Hfull.
  - rewrite sputc_full by exact Hl. simpl.
    rewrite CompressAndWrite_open by reflexivity. simpl.
    destruct (LZ4F_compressUpdate (m_context ob) cap (bs ++ [c]))
      as [code|[out ctx']]; reflexivity.
Qed.

End SinkFacts.

(** ** The decompressing source adapter *)

Section SourceFacts.
Context {codec : LZ4F} {upstream : ByteSource}.
Variables SrcBufSize DestBufSize : nat.
Import Source.

Lemma unconsumed_length (ib : input_buffer) :
  length (unconsumed ib) <= m_sourceBufferSize ib - m_offset ib.
Proof. unfold unconsumed. rewrite length_firstn. lia. Qed.

Lemma unconsumed_wf (ib : input_buffer) :
  wf SrcBufSize ib ->
  length (unconsumed ib) = m_sourceBufferSize ib - m_offset ib.
Proof.
  intros (Hl & Ho & Hs). unfold unconsumed.
  rewrite length_firstn, length_skipn. lia.
Qed.

(** Advancing [m_offset] drops the consumed bytes from the span. *)
Lemma unconsumed_advance (ib : input_buffer) dst (c : nat) ctx g e :
  unconsumed (mk_input_buffer (sourceBuffer ib) dst (m_offset ib + c)
                (m_sourceBufferSize ib) ctx g e)
  = skipn c (unconsumed ib).
Proof.
  unfold unconsumed. simpl.
  rewrite skipn_firstn_comm, skipn_skipn.
  f_equal; [lia | f_equal; lia].
Qed.

(** After a bulk read the span is what was read. *)
Lemma unconsumed_overwrite (bs arr : list byte) dst ctx g e :
  unconsumed (mk_input_buffer (overwrite bs arr) dst 0 (length bs) ctx g e)
  = bs.
Proof.
  unfold unconsumed, overwrite. simpl.
  rewrite Nat.sub_0_r, firstn_app, Nat.sub_diag, firstn_all. simpl.
  apply app_nil_r.
Qed.

Lemma loop_body_refilled (s : state) :
  loop_body SrcBufSize DestBufSize s = decode DestBufSize (refilled SrcBufSize s).
Proof.
  unfold loop_body, refilled, bind, refill. destruct s as [ib w].
  destruct (m_offset ib =? m_sourceBufferSize ib); [|reflexivity].
  destruct (istream_read (source w) SrcBufSize); reflexivity.
Qed.

Lemma refilled_keep (ib : input_buffer) (w : env) :
  m_offset ib <> m_sourceBufferSize ib ->
  refilled SrcBufSize (ib, w) = (ib, w).
Proof.
  intros Hne. unfold refilled, refill.
  apply Nat.eqb_neq in Hne. now rewrite Hne.
Qed.

Lemma refilled_read (ib : input_buffer) (w : env) :
  m_offset ib = m_sourceBufferSize ib ->
  refilled SrcBufSize (ib, w) =
  let bs := fst (istream_read (source w) SrcBufSize) in
  (mk_input_buffer (overwrite bs (sourceBuffer ib)) (destinationBuffer ib)
     0 (length bs) (m_context ib) (gptr ib) (egptr ib),
   mk_env (snd (istream_read (source w) SrcBufSize))
     (calls w ++ [SourceRead SrcBufSize bs])).
Proof.
  intros He. unfold refilled, refill.
  apply Nat.eqb_eq in He. rewrite He.
  destruct (istream_read (source w) SrcBufSize); reflexivity.
Qed.

(** [decode] with input left over, by the decoder's answer. *)
Lemma decode_cases (ib : input_buffer) (w : env) :
  m_sourceBufferSize ib <> 0 ->
  decode DestBufSize (ib, w) =
  let src := unconsumed ib in
  let w' := mk_env (source w) (calls w ++ [Decompress DestBufSize src]) in
  match LZ4F_decompress (m_context ib) DestBufSize src with
  | LZ4F_error code =>
      (Throws ("LZ4 decompression failed: "
                 ++ LZ4F_getErrorName code)%string, (ib, w'))
  | LZ4F_ok (src_size, out, ctx') =>
      (Returns (Written (length out)),
       (mk_input_buffer (sourceBuffer ib)
          (overwrite out (destinationBuffer ib))
          (m_offset ib + src_size) (m_sourceBufferSize ib) ctx'
          (gptr ib) (egptr ib), w'))
  end.
Proof.
  intros Hne. unfold decode. apply Nat.eqb_neq in Hne. now rewrite Hne.
Qed.

Lemma decode_eof (ib : input_buffer) (w : env) :
  m_sourceBufferSize ib = 0 ->
  decode DestBufSize (ib, w) = (Returns ReturnEof, (ib, w)).
Proof. intros He. unfold decode. now rewrite He. Qed.

(** A pass of the loop only adds to the history. *)
Lemma loop_body_extends (s : state) :
  exists new : list call,
    calls (snd (snd (loop_body SrcBufSize DestBufSize s)))
    = calls (snd s) ++ new.
Proof.
  rewrite loop_body_refilled. destruct s as [ib w].
  assert (Hr : exists new, calls (snd (refilled SrcBufSize (ib, w)))
                           = calls w ++ new).
  { destruct (Nat.eq_dec (m_offset ib) (m_sourceBufferSize ib)) as [E|E].
    - rewrite refilled_read by exact E. eexists. reflexivity.
    - rewrite refilled_keep by exact E. exists []. now rewrite app_nil_r. }
  destruct Hr as [new1 Hr].
  destruct (refilled SrcBufSize (ib, w)) as [ib1 w1]. cbn [snd] in *.
  unfold decode.
  destruct (m_sourceBufferSize ib1 =? 0);
    [exists new1; exact Hr|].
  destruct (LZ4F_decompress _ _ _) as [code|[[c out] ctx']];
    cbn [snd calls]; rewrite Hr, <- app_assoc; eexists; reflexivity.
Qed.

Lemma pull_loop_extends (fuel : nat) :
  forall (s : state) r (s' : state),
    pull_loop SrcBufSize DestBufSize fuel s = Some (r, s') ->
    exists new : list call, calls (snd s') = calls (snd s) ++ new.
Proof.
  induction fuel as [|fuel IH]; intros s r s' H; cbn [pull_loop] in H;
    [discriminate|].
  destruct (loop_body_extends s) as [new1 Hb].
  destruct (loop_body SrcBufSize DestBufSize s) as [[[|[|n]]|what|] s1];
    cbn [snd] in Hb; try (injection H as <- <-; exists new1; exact Hb).
  destruct (IH s1 r s' H) as [new2 H2].
  exists (new1 ++ new2). now rewrite H2, Hb, app_assoc.
Qed.

(** C7. Partial consumption: when the decoder, called in a pass of the
    pull loop, takes [c] bytes, fewer than it was offered, and produces
    nothing, the pass ends with [m_offset] advanced by [c] and
    [m_sourceBufferSize] and [sourceBuffer] as they were, and the loop
    goes on: its next pass reads nothing from upstream and calls the
    decoder on the rest of the same span.  [pull_loop] with two passes of
    fuel or more is given by the answer to that second call (it throws on
    an error, leaves with the output when there is some, and goes on
    otherwise), and whatever [pull_loop] or [underflow] returns, its
    history continues the one before the first call with the two calls,
    one after the other. *)
Theorem partial_consumption (s : state) (ib1 : input_buffer) (w1 : env)
    (c : nat) (ctx' : dctx) :
  refilled SrcBufSize s = (ib1, w1) ->
  m_sourceBufferSize ib1 <> 0 ->
  LZ4F_decompress (m_context ib1) DestBufSize (unconsumed ib1)
    = LZ4F_ok (c, [], ctx') ->
  c < length (unconsumed ib1) ->
  let rest := skipn c (unconsumed ib1) in
  let w3 := mk_env (source w1)
              (calls w1 ++ [Decompress DestBufSize (unconsumed ib1);
                            Decompress DestBufSize rest]) in
  exists ib2 w2,
    loop_body SrcBufSize DestBufSize s = (Returns (Written 0), (ib2, w2)) /\
    m_offset ib2 = m_offset ib1 + c /\
    m_sourceBufferSize ib2 = m_sourceBufferSize ib1 /\
    sourceBuffer ib2 = sourceBuffer ib1 /\
    unconsumed ib2 = rest /\
    rest <> [] /\
    refill SrcBufSize (ib2, w2) = (Returns tt, (ib2, w2)) /\
    (forall r s3,
        loop_body SrcBufSize DestBufSize (ib2, w2) = (r, s3) ->
        source (snd s3) = source w2 /\
        calls (snd s3) = calls w2 ++ [Decompress DestBufSize rest]) /\
    (forall fuel,
        pull_loop SrcBufSize DestBufSize (S fuel) s
        = pull_loop SrcBufSize DestBufSize fuel (ib2, w2)) /\
    (forall fuel,
        pull_loop SrcBufSize DestBufSize (S (S fuel)) s =
        match LZ4F_decompress ctx' DestBufSize rest with
        | LZ4F_error code =>
            Some (Throws ("LZ4 decompression failed: "
                            ++ LZ4F_getErrorName code)%string, (ib2, w3))
        | LZ4F_ok (c2, out, ctx2) =>
            let s3 :=
              (mk_input_buffer (sourceBuffer ib1)
                 (overwrite out (destinationBuffer ib2))
                 (m_offset ib1 + c + c2) (m_sourceBufferSize ib1) ctx2
                 (gptr ib1) (egptr ib1), w3) in
            match out with
            | [] => pull_loop SrcBufSize DestBufSize fuel s3
            | _ :: _ => Some (Returns (Written (length out)), s3)
            end
        end) /\
    (forall fuel r s',
        pull_loop SrcBufSize DestBufSize fuel s = Some (r, s') ->
        exists more : list call, calls (snd s') = calls w3 ++ more) /\
    (forall fuel r s',
        underflow SrcBufSize DestBufSize fuel s = Some (r, s') ->
        exists more : list call, calls (snd s') = calls w3 ++ more).
Proof.
  intros Hr Hne Hd Hc. cbv zeta.
  pose proof (unconsumed_length ib1) as Hlen.
  set (ib2 := mk_input_buffer (sourceBuffer ib1)
                (overwrite [] (destinationBuffer ib1))
                (m_offset ib1 + c) (m_sourceBufferSize ib1) ctx'
                (gptr ib1) (egptr ib1)).
  set (w2 := mk_env (source w1)
               (calls w1 ++ [Decompress DestBufSize (unconsumed ib1)])).
  set (rest := skipn c (unconsumed ib1)).
  set (w3 := mk_env (source w1)
               (calls w1 ++ [Decompress DestBufSize (unconsumed ib1);
                             Decompress DestBufSize rest])).
  assert (Hbody : loop_body SrcBufSize DestBufSize s
                  = (Returns (Written 0), (ib2, w2))).
  { rewrite loop_body_refilled, Hr, decode_cases by exact Hne.
    cbv zeta. now rewrite Hd. }
  assert (Hne2 : m_offset ib2 <> m_sourceBufferSize ib2)
    by (cbn [ib2 m_offset m_sourceBufferSize]; lia).
  assert (Hrest : unconsumed ib2 = rest) by apply unconsumed_advance.
  assert (Hnext :
            loop_body SrcBufSize DestBufSize (ib2, w2) =
            match LZ4F_decompress ctx' DestBufSize rest with
            | LZ4F_error code =>
                (Throws ("LZ4 decompression failed: "
                           ++ LZ4F_getErrorName code)%string, (ib2, w3))
            | LZ4F_ok (c2, out, ctx2) =>
                (Returns (Written (length out)),
                 (mk_input_buffer (sourceBuffer ib1)
                    (overwrite out (destinationBuffer ib2))
                    (m_offset ib1 + c + c2) (m_sourceBufferSize ib1) ctx2
                    (gptr ib1) (egptr ib1), w3))
            end).
  { rewrite loop_body_refilled, refilled_keep by exact Hne2.
    rewrite decode_cases by exact Hne. cbv zeta. rewrite Hrest.
    cbn [ib2 m_context sourceBuffer m_offset m_sourceBufferSize gptr egptr
           w2 source calls].
    unfold w3. rewrite <- app_assoc. cbn [app].
    destruct (LZ4F_decompress ctx' DestBufSize rest)
      as [code|[[c2 out] ctx2]]; reflexivity. }
  assert (Hlog : forall fuel r s',
             pull_loop SrcBufSize DestBufSize fuel s = Some (r, s') ->
             exists more : list call, calls (snd s') = calls w3 ++ more).
  { intros fuel r s' H.
    destruct fuel as [|fuel]; [discriminate|].
    cbn [pull_loop] in H. rewrite Hbody in H.
    destruct fuel as [|fuel]; [discriminate|].
    cbn [pull_loop] in H. rewrite Hnext in H.
    destruct (LZ4F_decompress ctx' DestBufSize rest)
      as [code|[[c2 [|o out]] ctx2]].
    - injection H as <- <-. exists []. now rewrite app_nil_r.
    - cbn [length] in H. apply pull_loop_extends in H. exact H.
    - injection H as <- <-. exists []. now rewrite app_nil_r. }
  exists ib2, w2.
  split; [exact Hbody|].
  split; [reflexivity|]. split; [reflexivity|]. split; [reflexivity|].
  split; [exact Hrest|].
  split.
  { unfold rest. intros He.
    apply (f_equal (@length byte)) in He. rewrite length_skipn in He.
    simpl in He. lia. }
  split.
  { unfold refill. apply Nat.eqb_neq in Hne2. now rewrite Hne2. }
  split.
  { intros r s3 H. rewrite Hnext in H.
    destruct (LZ4F_decompress ctx' DestBufSize rest)
      as [code|[[c2 out2] ctx2]];
      injection H as <- <-; unfold w3, w2; cbn [snd source calls];
      rewrite <- app_assoc; split; reflexivity. }
  split.
  { intros fuel. cbn [pull_loop]. now rewrite Hbody. }
  split.
  { intros fuel. cbn [pull_loop]. rewrite Hbody.
    cbn [pull_loop]. rewrite Hnext.
    destruct (LZ4F_decompress ctx' DestBufSize rest)
      as [code|[[c2 [|o out]] ctx2]]; reflexivity. }
  split; [exact Hlog|].
  intros fuel r s' H. unfold underflow in H.
  destruct (pull_loop SrcBufSize DestBufSize fuel s)
    as [[[[|n]|what|] [ib' w']]|] eqn:Hp; try discriminate;
    apply Hlog in Hp; injection H as <- <-; exact Hp.
Qed.

Lemma wf_refilled (ib : input_buffer) (w : env) :
  length (fst (istream_read (source w) SrcBufSize)) <= SrcBufSize ->
  wf SrcBufSize ib ->
  wf SrcBufSize (fst (refilled SrcBufSize (ib, w))) /\
  (m_sourceBufferSize (fst (refilled SrcBufSize (ib, w))) <> 0 ->
   m_offset (fst (refilled SrcBufSize (ib, w)))
     < m_sourceBufferSize (fst (refilled SrcBufSize (ib, w)))).
Proof.
  intros Hb (Hl & Ho & Hs).
  destruct (Nat.eq_dec (m_offset ib) (m_sourceBufferSize ib)) as [He|Hne].
  - rewrite refilled_read by exact He. unfold wf, overwrite. simpl.
    rewrite length_app, length_skipn. repeat split; lia.
  - rewrite refilled_keep by exact Hne. unfold wf. simpl.
    repeat split; lia.
Qed.

(** The bytes still to go through the decoder: the span, then what the
    upstream holds.  A bulk read moves bytes from the second part to the
    first. *)
Lemma refilled_pending (content : istream -> list byte)
    (ib : input_buffer) (w : env) :
  reads_from content ->
  unconsumed (fst (refilled SrcBufSize (ib, w)))
    ++ content (source (snd (refilled SrcBufSize (ib, w))))
  = unconsumed ib ++ content (source w).
Proof.
  intros Hsrc.
  destruct (Nat.eq_dec (m_offset ib) (m_sourceBufferSize ib)) as [He|Hne].
  - rewrite refilled_read by exact He. simpl.
    rewrite unconsumed_overwrite.
    destruct (Hsrc (source w) SrcBufSize) as (Hc & _). rewrite <- Hc.
    unfold unconsumed. now rewrite He, Nat.sub_diag.
  - now rewrite refilled_keep by exact Hne.
Qed.

Lemma wf_advance (ib : input_buffer) dst (c : nat) ctx g e :
  wf SrcBufSize ib ->
  c <= length (unconsumed ib) ->
  wf SrcBufSize
     (mk_input_buffer (sourceBuffer ib) dst (m_offset ib + c)
        (m_sourceBufferSize ib) ctx g e).
Proof.
  intros Hwf Hc. rewrite unconsumed_wf in Hc by exact Hwf.
  destruct Hwf as (Hl & Ho & Hs). unfold wf. simpl. repeat split; lia.
Qed.

Lemma decode_ReturnEof (ib : input_buffer) (w : env) (s' : state) :
  decode DestBufSize (ib, w) = (Returns ReturnEof, s') ->
  s' = (ib, w) /\ m_sourceBufferSize ib = 0.
Proof.
  unfold decode.
  destruct (m_sourceBufferSize ib =? 0) eqn:E.
  - intros H. injection H as <-. apply Nat.eqb_eq in E. now split.
  - destruct (LZ4F_decompress _ _ _) as [code|[[c out] ctx']]; discriminate.
Qed.

Lemma pull_loop_ReturnEof (fuel : nat) :
  forall (s : state) (ib : input_buffer) (w : env),
    pull_loop SrcBufSize DestBufSize fuel s = Some (Returns ReturnEof, (ib, w)) ->
    m_sourceBufferSize ib = 0.
Proof.
  induction fuel as [|fuel IH]; intros s ib w H; simpl in H; [discriminate|].
  destruct (loop_body SrcBufSize DestBufSize s) as [[[|[|n]]|what|] s'] eqn:E;
    try discriminate.
  - injection H as ->. rewrite loop_body_refilled in E.
    destruct (refilled SrcBufSize s) as [ib1 w1].
    apply decode_ReturnEof in E. destruct E as [E ?].
    now injection E as <- <-.
  - eapply IH; eassumption.
Qed.

Lemma underflow_eof_inv (fuel : nat) (s s' : state) :
  underflow SrcBufSize DestBufSize fuel s = Some (Returns None, s') ->
  pull_loop SrcBufSize DestBufSize fuel s = Some (Returns ReturnEof, s').
Proof.
  unfold underflow.
  destruct (pull_loop SrcBufSize DestBufSize fuel s)
    as [[[[|n]|what|] [ib w]]|]; try discriminate.
  now intros H; injection H as <-.
Qed.

Lemma underflow_of_pull_loop (fuel : nat) (s : state) :
  pull_loop SrcBufSize DestBufSize fuel s <> None ->
  underflow SrcBufSize DestBufSize fuel s <> None.
Proof.
  unfold underflow.
  destruct (pull_loop SrcBufSize DestBufSize fuel s)
    as [[[[|n]|what|] [ib w]]|]; try discriminate.
  intros H. now elim H.
Qed.

(** C6, as the header has it.  There is no end-of-stream flag: an
    [underflow] that returned [eof()] with nothing unconsumed leaves
    [m_offset = m_sourceBufferSize = 0], so the next [underflow] (and the
    next [sbumpc], the get area being used up) begins with one more bulk
    read of the upstream.  If that read again yields no byte the call
    returns [eof()] and leaves the object as it was, so the same holds
    for the read after it. *)
Theorem eof_persists_by_rereading (fuel : nat) (s : state)
    (ib : input_buffer) (w : env) :
  underflow SrcBufSize DestBufSize fuel s = Some (Returns None, (ib, w)) ->
  m_offset ib = m_sourceBufferSize ib ->
  let bs := fst (istream_read (source w) SrcBufSize) in
  let w' := mk_env (snd (istream_read (source w) SrcBufSize))
              (calls w ++ [SourceRead SrcBufSize bs]) in
  m_sourceBufferSize ib = 0 /\
  snd (refilled SrcBufSize (ib, w)) = w' /\
  count is_source_read (calls w') = count is_source_read (calls w) + 1 /\
  (bs = [] ->
   forall fuel',
     underflow SrcBufSize DestBufSize (S fuel') (ib, w)
       = Some (Returns None, (ib, w')) /\
     (egptr ib <= gptr ib ->
      sbumpc SrcBufSize DestBufSize (S fuel') (ib, w)
        = Some (Returns None, (ib, w')))).
Proof.
  intros H Hoff. simpl.
  apply underflow_eof_inv, pull_loop_ReturnEof in H.
  split; [exact H|]. split; [now rewrite refilled_read by exact Hoff|].
  split; [rewrite count_app; reflexivity|].
  intros Hbs fuel'.
  assert (Hu : underflow SrcBufSize DestBufSize (S fuel') (ib, w)
               = Some (Returns None,
                       (ib, mk_env (snd (istream_read (source w) SrcBufSize))
                              (calls w ++ [SourceRead SrcBufSize
                                 (fst (istream_read (source w) SrcBufSize))])))).
  { unfold underflow. simpl.
    rewrite loop_body_refilled, refilled_read by exact Hoff. cbv zeta.
    rewrite Hbs. rewrite decode_eof by reflexivity.
    destruct ib as [buf dst off size ctx g e]. simpl in *.
    rewrite H in Hoff. subst off size. reflexivity. }
  split; [exact Hu|].
  intros Hg. unfold sbumpc.
  apply Nat.ltb_ge in Hg. rewrite Hg. now rewrite Hu.
Qed.

(** A pass that neither leaves the loop nor fails strictly shortens what
    is still to go through the decoder. *)
Lemma pull_loop_terminates (content : istream -> list byte) :
  reads_from content ->
  decoder_progresses DestBufSize ->
  forall (fuel : nat) (s : state),
    wf SrcBufSize (fst s) ->
    length (unconsumed (fst s)) + length (content (source (snd s))) < fuel ->
    pull_loop SrcBufSize DestBufSize fuel s <> None.
Proof.
  intros Hsrc Hdec. induction fuel as [|fuel IH]; intros [ib w] Hwf Hm;
    simpl in *; [lia|].
  rewrite loop_body_refilled.
  pose proof (refilled_pending content ib w Hsrc) as Hp.
  destruct (Hsrc (source w) SrcBufSize) as (_ & Hb & _).
  destruct (wf_refilled ib w Hb Hwf) as [Hwf1 Hlt].
  destruct (refilled SrcBufSize (ib, w)) as [ib1 w1]. cbn [fst snd] in *.
  destruct (Nat.eq_dec (m_sourceBufferSize ib1) 0) as [Hz|Hnz].
  { rewrite decode_eof by exact Hz. discriminate. }
  rewrite decode_cases by exact Hnz. simpl.
  specialize (Hlt Hnz).
  pose proof (unconsumed_wf ib1 Hwf1) as Hlen.
  assert (Hne : unconsumed ib1 <> []).
  { intros He. rewrite He in Hlen. simpl in Hlen. lia. }
  specialize (Hdec (m_context ib1) (unconsumed ib1) Hne).
  destruct (LZ4F_decompress (m_context ib1) DestBufSize (unconsumed ib1))
    as [code|[[c out] ctx']]; [discriminate|].
  destruct Hdec as [Hc Hprog].
  destruct out as [|o out]; [|discriminate]. simpl.
  destruct Hprog as [Hpos|Habs]; [|now elim Habs].
  apply IH; simpl.
  - now apply wf_advance.
  - rewrite unconsumed_advance, length_skipn.
    apply (f_equal (@length byte)) in Hp. rewrite !length_app in Hp. lia.
Qed.

(** A decoder that keeps answering "nothing taken, nothing produced" on
    the span keeps the loop in the same place. *)
Lemma pull_loop_stalls (P : dctx -> Prop) (buf span : list byte)
    (off size : nat) :
  off < size ->
  (forall d, P d ->
     exists d', LZ4F_decompress d DestBufSize span = LZ4F_ok (0, [], d')
                /\ P d') ->
  forall (fuel : nat) (ib : input_buffer) (w : env),
    sourceBuffer ib = buf -> m_offset ib = off ->
    m_sourceBufferSize ib = size -> unconsumed ib = span ->
    P (m_context ib) ->
    pull_loop SrcBufSize DestBufSize fuel (ib, w) = None.
Proof.
  intros Hlt Hstall. induction fuel as [|fuel IH];
    intros ib w Hbuf Hoff Hsize Hspan HP; simpl; [reflexivity|].
  rewrite loop_body_refilled, refilled_keep by lia.
  rewrite decode_cases by lia. simpl.
  destruct (Hstall _ HP) as (d' & Hd & HP').
  rewrite Hspan, Hd. simpl.
  apply IH; simpl; try assumption.
  - lia.
  - rewrite <- Hspan. unfold unconsumed. simpl.
    now rewrite Nat.add_0_r.
Qed.

(** C10. Termination of the pull loop rests on the decoder making
    progress.  (i) If every call on a non-empty span that does not fail
    takes at least one byte or produces at least one (and takes no more
    than offered), then over an upstream that obeys the byte-stream
    contract and holds finitely many bytes [underflow] returns, within as
    many passes as bytes are still to be decoded, plus one.  (ii) If
    input is left unconsumed and the decoder answers "nothing taken,
    nothing produced" on it, now and in the session states this leads
    to, [underflow] does not return, whatever the fuel. *)
Theorem pull_loop_needs_progress :
  (forall content : istream -> list byte,
      reads_from content ->
      decoder_progresses DestBufSize ->
      forall (s : state) (fuel : nat),
        wf SrcBufSize (fst s) ->
        length (unconsumed (fst s)) + length (content (source (snd s))) < fuel ->
        underflow SrcBufSize DestBufSize fuel s <> None) /\
  (forall (P : dctx -> Prop) (ib : input_buffer) (w : env),
      m_offset ib < m_sourceBufferSize ib ->
      P (m_context ib) ->
      (forall d, P d ->
         exists d',
           LZ4F_decompress d DestBufSize (unconsumed ib) = LZ4F_ok (0, [], d')
           /\ P d') ->
      forall fuel : nat,
        underflow SrcBufSize DestBufSize fuel (ib, w) = None).
Proof.
  split.
  - intros content Hsrc Hdec s fuel Hwf Hm.
    apply underflow_of_pull_loop.
    now apply (pull_loop_terminates content Hsrc Hdec).
  - intros P ib w Hlt HP Hstall fuel. unfold underflow.
    now rewrite (pull_loop_stalls P (sourceBuffer ib) (unconsumed ib)
                   (m_offset ib) (m_sourceBufferSize ib) Hlt Hstall fuel ib w
                   eq_refl eq_refl eq_refl eq_refl HP).
Qed.

End SourceFacts.

(** ** Release of the codec session *)

Section Release.
Context {codec : LZ4F} {upstream : ByteSource}.
Variables SrcBufSize InBufSize DestBufSize : nat.

(** No member function of [output_buffer] changes [owed], however it
    ends. *)
Lemma CompressAndWrite_owed (s : Sink.state) :
  Sink.owed (snd (Sink.CompressAndWrite SrcBufSize s)) = Sink.owed s.
Proof.
  destruct s as [ob w]. destruct (Sink.m_closed ob) eqn:Hc.
  - now rewrite CompressAndWrite_closed.
  - rewrite CompressAndWrite_open by exact Hc. cbv zeta. unfold Sink.owed.
    destruct (LZ4F_compressUpdate _ _ _) as [code|[out ctx']];
      cbn [fst snd Sink.calls Sink.m_closed];
      now rewrite count_app, Hc, Nat.add_0_r.
Qed.

Lemma sputc_owed (c : byte) (s : Sink.state) :
  Sink.owed (snd (Sink.sputc SrcBufSize c s)) = Sink.owed s.
Proof.
  destruct s as [ob w]. unfold Sink.sputc. cbn [fst].
  destruct (length (Sink.put_area ob) <? SrcBufSize - 1); [reflexivity|].
  unfold Sink.overflow, bind, assert.
  destruct (Sink.pptr_le_epptr SrcBufSize (ob, w)); [|reflexivity].
  cbn [Sink.store].
  pose proof (CompressAndWrite_owed
                (Sink.mk_output_buffer (Sink.put_area ob ++ [c])
                   (Sink.m_context ob) (Sink.m_closed ob), w)) as H.
  destruct (Sink.CompressAndWrite SrcBufSize _) as [[[]|what|] s'];
    exact H.
Qed.

Lemma xsputn_owed (bs : list byte) :
  forall s : Sink.state,
    Sink.owed (snd (Sink.xsputn SrcBufSize bs s)) = Sink.owed s.
Proof.
  induction bs as [|b bs IH]; intros s; [reflexivity|].
  cbn [Sink.xsputn]. unfold bind.
  pose proof (sputc_owed b s) as H.
  destruct (Sink.sputc SrcBufSize b s) as [[c'|what|] s']; cbn [snd] in *;
    [now rewrite IH | exact H | exact H].
Qed.

(** [Close] keeps it too, and when it returns the adapter is closed. *)
Lemma Close_owed (s : Sink.state) :
  Sink.owed (snd (Sink.Close SrcBufSize s)) = Sink.owed s /\
  (forall u, fst (Sink.Close SrcBufSize s) = Returns u ->
             Sink.m_closed (fst (snd (Sink.Close SrcBufSize s))) = true).
Proof.
  destruct s as [ob w]. destruct (Sink.m_closed ob) eqn:Hc.
  - rewrite Close_closed by exact Hc. now split.
  - rewrite Close_open by exact Hc. cbv zeta. unfold Sink.owed.
    destruct (LZ4F_compressUpdate _ _ _) as [code|[out ctx1]].
    + cbn [fst snd Sink.calls Sink.m_closed].
      rewrite count_app, Hc. split; [now rewrite Nat.add_0_r | discriminate].
    + destruct (LZ4F_compressEnd ctx1 _) as [code|[footer ctx2]];
        cbn [fst snd Sink.calls Sink.m_closed]; rewrite !count_app, Hc.
      * split; [now rewrite !Nat.add_0_r | discriminate].
      * split; [cbn; lia | reflexivity].
Qed.

Lemma perform_all_owed (rs : list Sink.request) :
  forall s : Sink.state,
    Sink.owed (snd (Sink.perform_all SrcBufSize rs s)) = Sink.owed s.
Proof.
  induction rs as [|r rs IH]; intros s; [reflexivity|].
  cbn [Sink.perform_all]. unfold bind.
  assert (H : Sink.owed (snd (Sink.perform SrcBufSize r s)) = Sink.owed s).
  { destruct r as [c|bs| |]; cbn [Sink.perform]; unfold bind, ret.
    - pose proof (sputc_owed c s) as H.
      now destruct (Sink.sputc SrcBufSize c s) as [[c'|what|] s'].
    - apply xsputn_owed.
    - unfold Sink.flush, Sink.sync, bind, ret.
      pose proof (CompressAndWrite_owed s) as H.
      now destruct (Sink.CompressAndWrite SrcBufSize s) as [[[]|what|] s'].
    - apply Close_owed. }
  destruct (Sink.perform SrcBufSize r s) as [[[]|what|] s']; cbn [snd] in *;
    [now rewrite IH | exact H | exact H].
Qed.

(** Where the [output_buffer] releases its session exactly once: whenever
    the constructor returned and the destructor returned, whether or not
    a request in between threw. *)
Lemma output_buffer_frees_once (rs : list Sink.request) (w w1 w' : Sink.env)
    (ob : Sink.output_buffer) (r : outcome unit) :
  Sink.construct SrcBufSize w = (Returns ob, w1) ->
  Sink.lifetime SrcBufSize rs w = (r, w') ->
  r <> Aborts ->
  count is_free_cctx (Sink.calls w') = count is_free_cctx (Sink.calls w) + 1.
Proof.
  intros Hc Hl Hr. unfold Sink.lifetime in Hl. rewrite Hc in Hl.
  assert (H0 : Sink.owed (ob, w1) = count is_free_cctx (Sink.calls w) + 1).
  { pose proof Hc as Hc'. rewrite construct_cases in Hc'. cbv zeta in Hc'.
    destruct LZ4F_createCompressionContext as [code|ctx0]; [discriminate|].
    destruct (LZ4F_compressBegin ctx0 _) as [code|[header ctx1]];
      [discriminate|].
    injection Hc' as <- <-. unfold Sink.owed.
    cbn [fst snd Sink.calls Sink.m_closed].
    rewrite !count_app. cbn. lia. }
  pose proof (perform_all_owed rs (ob, w1)) as H1.
  destruct (Sink.perform_all SrcBufSize rs (ob, w1)) as [r2 s2].
  cbn [snd] in H1.
  destruct (Close_owed s2) as [H2 H3]. unfold Sink.destroy in Hl.
  destruct (Sink.Close SrcBufSize s2) as [r3 [ob3 w3]]. cbn [fst snd] in *.
  assert (Hfin : r3 = Returns tt -> w' = w3 ->
                 count is_free_cctx (Sink.calls w')
                 = count is_free_cctx (Sink.calls w) + 1).
  { intros -> ->. specialize (H3 tt eq_refl).
    rewrite H0 in H1. unfold Sink.owed in H1, H2. cbn [fst snd] in H2.
    rewrite H3 in H2. lia. }
  destruct r2 as [[]|what|], r3 as [[]|what3|], s2 as [ob2 w2];
    injection Hl as <- <-; try (now elim Hr); now apply Hfin.
Qed.

Lemma loop_body_frees (s : Source.state) :
  Source.frees (snd (Source.loop_body InBufSize DestBufSize s))
  = Source.frees s.
Proof.
  rewrite loop_body_refilled. destruct s as [ib w].
  assert (Hr : Source.frees (Source.refilled InBufSize (ib, w))
               = Source.frees (ib, w)).
  { destruct (Nat.eq_dec (Source.m_offset ib) (Source.m_sourceBufferSize ib))
      as [E|E].
    - rewrite refilled_read by exact E. unfold Source.frees. cbn [snd Source.calls].
      now rewrite count_app, Nat.add_0_r.
    - now rewrite refilled_keep by exact E. }
  destruct (Source.refilled InBufSize (ib, w)) as [ib1 w1].
  rewrite <- Hr. unfold Source.decode, Source.frees.
  destruct (Source.m_sourceBufferSize ib1 =? 0); [reflexivity|].
  destruct (LZ4F_decompress _ _ _) as [code|[[c out] ctx']];
    cbn [snd Source.calls]; now rewrite count_app, Nat.add_0_r.
Qed.

Lemma pull_loop_frees (fuel : nat) :
  forall (s : Source.state) r (s' : Source.state),
    Source.pull_loop InBufSize DestBufSize fuel s = Some (r, s') ->
    Source.frees s' = Source.frees s.
Proof.
  induction fuel as [|fuel IH]; intros s r s' H; cbn [Source.pull_loop] in H;
    [discriminate|].
  pose proof (loop_body_frees s) as Hb.
  destruct (Source.loop_body InBufSize DestBufSize s) as [[[|[|n]]|what|] s1];
    cbn [snd] in Hb; try (injection H as <- <-; exact Hb).
  rewrite <- Hb. now apply (IH s1 r s').
Qed.

Lemma sbumpc_frees (fuel : nat) (s : Source.state) r (s' : Source.state) :
  Source.sbumpc InBufSize DestBufSize fuel s = Some (r, s') ->
  Source.frees s' = Source.frees s.
Proof.
  destruct s as [ib w]. unfold Source.sbumpc.
  destruct (Source.gptr ib <? Source.egptr ib).
  - now intros H; injection H as <- <-.
  - unfold Source.underflow.
    destruct (Source.pull_loop InBufSize DestBufSize fuel (ib, w))
      as [[[[|n]|what|] [ib1 w1]]|] eqn:Hp; try discriminate;
      apply pull_loop_frees in Hp; intros H; injection H as <- <-; exact Hp.
Qed.

Lemma read_all_frees (fuel n : nat) :
  forall (s : Source.state) r (s' : Source.state),
    Source.read_all InBufSize DestBufSize fuel n s = Some (r, s') ->
    Source.frees s' = Source.frees s.
Proof.
  induction n as [|n IH]; intros s r s' H; cbn [Source.read_all] in H;
    [discriminate|].
  destruct (Source.sbumpc InBufSize DestBufSize fuel s)
    as [[[[c|]|what|] s1]|] eqn:Hs; try discriminate;
    apply sbumpc_frees in Hs; try (injection H as <- <-; exact Hs).
  destruct (Source.read_all InBufSize DestBufSize fuel n s1)
    as [[[bs|what|] s2]|] eqn:Hr; try discriminate;
    apply IH in Hr; injection H as <- <-; now rewrite Hr.
Qed.

(** The [input_buffer] releases its session exactly once, however the
    reading ends. *)
Lemma input_buffer_frees_once (fuel n : nat) (w w1 w' : Source.env)
    (ib : Source.input_buffer) (r : outcome (list byte)) :
  Source.construct InBufSize DestBufSize w = (Returns ib, w1) ->
  Source.lifetime InBufSize DestBufSize fuel n w = Some (r, w') ->
  count is_free_dctx (Source.calls w')
  = count is_free_dctx (Source.calls w) + 1.
Proof.
  intros Hc Hl. unfold Source.lifetime in Hl. rewrite Hc in Hl.
  assert (H0 : Source.frees (ib, w1) = count is_free_dctx (Source.calls w)).
  { unfold Source.construct in Hc.
    destruct LZ4F_createDecompressionContext as [code|ctx]; [discriminate|].
    injection Hc as <- <-. unfold Source.frees. cbn [snd Source.calls].
    now rewrite count_app, Nat.add_0_r. }
  destruct (Source.read_all InBufSize DestBufSize fuel n (ib, w1))
    as [[r2 [ib2 w2]]|] eqn:Hr; [|discriminate].
  apply read_all_frees in Hr. injection Hl as <- <-.
  unfold Source.frees in *. cbn [snd Source.destroy Source.calls] in *.
  rewrite count_app, Hr, H0. reflexivity.
Qed.

End Release.

(** ** Errors of the codec *)

Section ErrorPropagation.
Context {codec : LZ4F} {upstream : ByteSource}.
Variables SrcBufSize InBufSize DestBufSize : nat.

Lemma pull_loop_after_passes (k : nat) :
  forall (s s_k : Source.state) (fuel : nat),
    Source.after_passes InBufSize DestBufSize k s = Some s_k ->
    Source.pull_loop InBufSize DestBufSize (k + fuel) s
    = Source.pull_loop InBufSize DestBufSize fuel s_k.
Proof.
  induction k as [|k IH]; intros s s_k fuel H; simpl in *.
  - now injection H as <-.
  - destruct (Source.loop_body InBufSize DestBufSize s)
      as [[[|[|n]]|what|] s']; try discriminate.
    now apply IH.
Qed.

(** C5. An error indicator of the codec ends the operation with a
    [std::runtime_error] whose message ends in the codec's error name.
    Decoder: if the pull loop, after [k] passes without output, calls
    [LZ4F_decompress] and gets an error, then [underflow] throws; the
    decoder was called once more and no further time, and the caller does
    not see end of stream ([sbumpc] and a read to the end throw as well).
    Encoder: an error of [LZ4F_compressBegin] makes the constructor
    throw, one of [LZ4F_compressUpdate] makes [CompressAndWrite] (so
    [flush], [Close], and the [sputc] that fills the put area) throw, one
    of [LZ4F_compressEnd] makes [Close] throw. *)
Theorem codec_errors_are_fatal :
  (forall (s s_k : Source.state) (k : nat) (ib : Source.input_buffer)
          (w : Source.env) (code : errcode),
      Source.after_passes InBufSize DestBufSize k s = Some s_k ->
      Source.refilled InBufSize s_k = (ib, w) ->
      Source.m_sourceBufferSize ib <> 0 ->
      LZ4F_decompress (Source.m_context ib) DestBufSize (Source.unconsumed ib)
        = LZ4F_error code ->
      forall fuel : nat,
        k < fuel ->
        let what :=
          ("LZ4 decompression failed: " ++ LZ4F_getErrorName code)%string in
        let failed :=
          (ib, Source.mk_env (Source.source w)
                 (Source.calls w
                    ++ [Decompress DestBufSize (Source.unconsumed ib)])) in
        Source.underflow InBufSize DestBufSize fuel s
          = Some (Throws what, failed) /\
        (Source.egptr (fst s) <= Source.gptr (fst s) ->
         Source.sbumpc InBufSize DestBufSize fuel s
           = Some (Throws what, failed) /\
         forall n, Source.read_all InBufSize DestBufSize fuel (S n) s
                   = Some (Throws what, failed))) /\
  (forall (w : Sink.env) (ctx0 : cctx) (code : errcode),
      LZ4F_createCompressionContext = LZ4F_ok ctx0 ->
      LZ4F_compressBegin ctx0 (Sink.destination_capacity SrcBufSize)
        = LZ4F_error code ->
      Sink.construct SrcBufSize w =
      (Throws ("Failed to start LZ4 compression: "
                 ++ LZ4F_getErrorName code)%string,
       Sink.mk_env (Sink.sink w)
         (Sink.calls w
            ++ [CreateCompressionContext;
                CompressBegin (Sink.destination_capacity SrcBufSize)]))) /\
  (forall (ob : Sink.output_buffer) (w : Sink.env) (code : errcode),
      Sink.m_closed ob = false ->
      LZ4F_compressUpdate (Sink.m_context ob)
        (Sink.destination_capacity SrcBufSize) (Sink.put_area ob)
        = LZ4F_error code ->
      let what :=
        ("LZ4 compression failed: " ++ LZ4F_getErrorName code)%string in
      let failed :=
        (Sink.mk_output_buffer [] (Sink.m_context ob) false,
         Sink.mk_env (Sink.sink w)
           (Sink.calls w
              ++ [CompressUpdate (Sink.destination_capacity SrcBufSize)
                    (Sink.put_area ob)])) in
      Sink.CompressAndWrite SrcBufSize (ob, w) = (Throws what, failed) /\
      Sink.flush SrcBufSize (ob, w) = (Throws what, failed) /\
      Sink.Close SrcBufSize (ob, w) = (Throws what, failed)) /\
  (forall (ob : Sink.output_buffer) (w : Sink.env) (c : byte)
          (code : errcode),
      0 < SrcBufSize ->
      Sink.m_closed ob = false ->
      length (Sink.put_area ob) = SrcBufSize - 1 ->
      LZ4F_compressUpdate (Sink.m_context ob)
        (Sink.destination_capacity SrcBufSize) (Sink.put_area ob ++ [c])
        = LZ4F_error code ->
      fst (Sink.sputc SrcBufSize c (ob, w))
      = Throws ("LZ4 compression failed: " ++ LZ4F_getErrorName code)%string) /\
  (forall (ob : Sink.output_buffer) (w : Sink.env) (out : list byte)
          (ctx1 : cctx) (code : errcode),
      Sink.m_closed ob = false ->
      LZ4F_compressUpdate (Sink.m_context ob)
        (Sink.destination_capacity SrcBufSize) (Sink.put_area ob)
        = LZ4F_ok (out, ctx1) ->
      LZ4F_compressEnd ctx1 (Sink.destination_capacity SrcBufSize)
        = LZ4F_error code ->
      fst (Sink.Close SrcBufSize (ob, w))
      = Throws ("Failed to end LZ4 compression: "
                  ++ LZ4F_getErrorName code)%string).
Proof.
  split; [|split; [|split; [|split]]].
  - intros s s_k k ib w code Hk Hr Hnz Herr fuel Hlt. cbv zeta.
    assert (Hp : Source.pull_loop InBufSize DestBufSize fuel s
                 = Some (Throws ("LZ4 decompression failed: "
                                   ++ LZ4F_getErrorName code)%string,
                         (ib, Source.mk_env (Source.source w)
                                (Source.calls w
                                   ++ [Decompress DestBufSize
                                         (Source.unconsumed ib)])))).
    { replace fuel with (k + S (fuel - k - 1)) by lia.
      rewrite (pull_loop_after_passes k s s_k _ Hk). simpl.
      rewrite loop_body_refilled, Hr, decode_cases by exact Hnz.
      cbv zeta. now rewrite Herr. }
    assert (Hu : Source.underflow InBufSize DestBufSize fuel s
                 = Some (Throws ("LZ4 decompression failed: "
                                   ++ LZ4F_getErrorName code)%string,
                         (ib, Source.mk_env (Source.source w)
                                (Source.calls w
                                   ++ [Decompress DestBufSize
                                         (Source.unconsumed ib)])))).
    { unfold Source.underflow. now rewrite Hp. }
    split; [exact Hu|]. intros Hg.
    assert (Hs : Source.sbumpc InBufSize DestBufSize fuel s
                 = Some (Throws ("LZ4 decompression failed: "
                                   ++ LZ4F_getErrorName code)%string,
                         (ib, Source.mk_env (Source.source w)
                                (Source.calls w
                                   ++ [Decompress DestBufSize
                                         (Source.unconsumed ib)])))).
    { unfold Source.sbumpc. destruct s as [ib0 w0]. simpl in Hg.
      apply Nat.ltb_ge in Hg. now rewrite Hg, Hu. }
    split; [exact Hs|]. intros n. simpl. now rewrite Hs.
  - intros w ctx0 code Hc Hb. rewrite construct_cases. cbv zeta.
    rewrite Hc, Hb. simpl. now rewrite <- app_assoc.
  - intros ob w code Hcl Hu. cbv zeta.
    rewrite Close_open by exact Hcl. unfold Sink.flush, Sink.sync, bind.
    rewrite CompressAndWrite_open by exact Hcl. cbv zeta.
    rewrite Hu. repeat split.
  - intros ob w c code _ Hcl Hl Hu.
    rewrite sputc_full by exact Hl.
    rewrite CompressAndWrite_open by exact Hcl. cbv zeta. simpl.
    rewrite Hu. reflexivity.
  - intros ob w out ctx1 code Hcl Hu He.
    rewrite Close_open by exact Hcl. cbv zeta. now rewrite Hu, He.
Qed.

End ErrorPropagation.

(** ** Round trip *)

Section RoundTripSink.
Context {codec : LZ4F}.
Variable SrcBufSize : nat.
Import Sink.

Abbreviation cap' := (destination_capacity SrcBufSize).

Lemma chunk_spec (bs : list byte) :
  forall pending : list byte,
    0 < SrcBufSize ->
    length pending <= SrcBufSize - 1 ->
    concat (fst (chunk SrcBufSize pending bs))
      ++ snd (chunk SrcBufSize pending bs) = pending ++ bs /\
    Forall (fun src => length src <= SrcBufSize)
      (fst (chunk SrcBufSize pending bs)) /\
    length (snd (chunk SrcBufSize pending bs)) <= SrcBufSize - 1.
Proof.
  induction bs as [|b bs IH]; intros pending Hpos Hl; simpl.
  - rewrite app_nil_r. auto.
  - destruct (length pending <? SrcBufSize - 1) eqn:E.
    + apply Nat.ltb_lt in E.
      destruct (IH (pending ++ [b]) Hpos) as (H1 & H2 & H3).
      { rewrite length_app. simpl. lia. }
      rewrite H1, <- app_assoc. auto.
    + apply Nat.ltb_ge in E.
      destruct (IH [] Hpos) as (H1 & H2 & H3); [simpl; lia|].
      destruct (chunk SrcBufSize [] bs) as [spans rest]. simpl in *.
      rewrite <- !app_assoc. simpl. rewrite H1.
      repeat split; auto.
      constructor; [|exact H2]. rewrite length_app. simpl. lia.
Qed.

Lemma compress_updates_app (xs ys : list (list byte)) :
  forall ctx : cctx,
    compress_updates cap' ctx (xs ++ ys) =
    match compress_updates cap' ctx xs with
    | Some (o1, c1) =>
        match compress_updates cap' c1 ys with
        | Some (o2, c2) => Some (o1 ++ o2, c2)
        | None => None
        end
    | None => None
    end.
Proof.
  induction xs as [|x xs IH]; intros ctx; simpl.
  - destruct (compress_updates cap' ctx ys) as [[o2 c2]|]; reflexivity.
  - destruct (LZ4F_compressUpdate ctx cap' x) as [code|[out c0]];
      [reflexivity|].
    rewrite IH.
    destruct (compress_updates cap' c0 xs) as [[o1 c1]|]; [|reflexivity].
    destruct (compress_updates cap' c1 ys) as [[o2 c2]|]; [|reflexivity].
    now rewrite app_assoc.
Qed.

(** A write, when the encoder accepts every span it is cut into: the
    outputs go to the sink in order and the rest stays in the put
    area. *)
Lemma xsputn_chunk (bs : list byte) :
  forall (ob : output_buffer) (w : env) (outs : list byte) (ctx' : cctx),
    m_closed ob = false ->
    length (put_area ob) <= SrcBufSize - 1 ->
    compress_updates cap' (m_context ob)
      (fst (chunk SrcBufSize (put_area ob) bs)) = Some (outs, ctx') ->
    xsputn SrcBufSize bs (ob, w) =
    (Returns tt,
     (mk_output_buffer (snd (chunk SrcBufSize (put_area ob) bs)) ctx' false,
      mk_env (sink w ++ outs)
        (calls w ++ map (CompressUpdate cap')
                      (fst (chunk SrcBufSize (put_area ob) bs))))).
Proof.
  induction bs as [|b bs IH]; intros [pa ctx cl] [snk cls] outs ctx' Hc Hl Hu;
    simpl in Hc, Hl; subst cl.
  - simpl in *. injection Hu as <- <-. unfold ret.
    now rewrite !app_nil_r.
  - cbn [xsputn]. unfold bind.
    cbn [chunk put_area m_context] in *.
    destruct (length pa <? SrcBufSize - 1) eqn:E.
    + apply Nat.ltb_lt in E. rewrite sputc_room by exact E.
      cbn [put_area m_context m_closed].
      apply (IH (mk_output_buffer (pa ++ [b]) ctx false)); cbn; auto.
      rewrite length_app. simpl. lia.
    + apply Nat.ltb_ge in E.
      rewrite sputc_full by (cbn; lia).
      rewrite CompressAndWrite_open by reflexivity.
      cbn [put_area m_context m_closed sink calls].
      destruct (chunk SrcBufSize [] bs) as [spans rest] eqn:Ech.
      cbn [fst snd compress_updates] in *.
      destruct (LZ4F_compressUpdate ctx cap' (pa ++ [b])) as [code|[out c0]];
        [discriminate|].
      destruct (compress_updates cap' c0 spans) as [[o1 c1]|] eqn:Hs;
        [|discriminate].
      injection Hu as <- <-.
      rewrite (IH (mk_output_buffer [] c0 false) _ o1 c1);
        cbn [put_area m_context m_closed]; auto.
      * rewrite Ech. cbn [fst snd sink calls map].
        now rewrite <- !app_assoc.
      * simpl. lia.
      * now rewrite Ech.
Qed.


End RoundTripSink.

Section RoundTripSource.
Context {codec : LZ4F} {upstream : ByteSource}.
Variables SrcBufSize InBufSize DestBufSize : nat.
Variable decodes : dctx -> list byte -> list byte -> Prop.
Variable content : istream -> list byte.
Hypothesis Hcodec :
  codec_contract (Sink.destination_capacity SrcBufSize) SrcBufSize DestBufSize
    decodes.
Hypothesis Hsrc : reads_from content.
Hypothesis Hin : 0 < InBufSize.
Import Source.








End RoundTripSource.

(** ** The concrete collaborators honour the contracts *)

Module ToyFacts.
Import Toy.

(** Whatever the codec declares as its bound, the adapter gives it one
    byte of room. *)
Lemma capacity_is_one (c : LZ4F) (C : nat) :
  Sink.destination_capacity (codec := c) C = 1.
Proof. reflexivity. Qed.

Lemma toy_updates_inv (cap : nat) (spans : list (list byte)) :
  forall outs c,
    Sink.compress_updates (codec := codec bound) cap CBegun spans
      = Some (outs, c) ->
    outs = flat_map literal (concat spans) /\ c = CBegun.
Proof.
  induction spans as [|x spans IH]; intros outs c H;
    cbn [Sink.compress_updates LZ4F_compressUpdate codec toy_update] in H.
  - injection H as <- <-. split; reflexivity.
  - destruct (_ <? _); [discriminate|].
    destruct (Sink.compress_updates (codec := codec bound) cap CBegun spans)
      as [[o1 c1]|]; [|discriminate].
    injection H as <- <-. destruct (IH o1 c1 eq_refl) as [-> ->].
    cbn [concat]. rewrite flat_map_app. split; reflexivity.
Qed.

(** Given the room it declares, the codec accepts every span. *)
Lemma toy_updates_ok (C : nat) (spans : list (list byte)) :
  Forall (fun src => length src <= C) spans ->
  Sink.compress_updates (codec := codec bound) (bound C) CBegun spans
  = Some (flat_map literal (concat spans), CBegun).
Proof.
  induction 1 as [|x spans Hx _ IH]; [reflexivity|].
  cbn [Sink.compress_updates LZ4F_compressUpdate codec toy_update].
  replace (bound C <? 2 * length x) with false
    by (symmetry; apply Nat.ltb_ge; unfold bound; lia).
  rewrite IH. cbn [concat]. now rewrite flat_map_app.
Qed.

Lemma denote_literals (X : list byte) :
  denote DToken (flat_map literal X ++ [tok_end]) = Some X.
Proof.
  induction X as [|b X IH]; [reflexivity|].
  cbn [flat_map literal app denote]. change (Byte.eqb tok_literal tok_literal)
    with true. cbv iota. now rewrite IH.
Qed.

Lemma toy_frame (cap : nat) (spans : list (list byte)) (Z : list byte) :
  Sink.compress_frame (codec := codec bound) cap spans = Some Z ->
  Z = [magic] ++ flat_map literal (concat spans) ++ [tok_end].
Proof.
  unfold Sink.compress_frame.
  cbn [LZ4F_createCompressionContext LZ4F_compressBegin LZ4F_compressEnd
         codec toy_begin].
  destruct (_ <? 1); [discriminate|].
  destruct (Sink.compress_updates (codec := codec bound) cap CBegun spans)
    as [[body c]|] eqn:Hu; [|discriminate].
  apply toy_updates_inv in Hu. destruct Hu as [-> ->]. cbn [toy_end].
  destruct (_ <? 2); [discriminate|].
  now intros H; injection H as <-.
Qed.

(** The contract of the specification: with the room it declares for
    spans of [C] bytes, the codec encodes every such span and decodes
    what it encoded. *)
Lemma toy_contract (C D : nat) :
  0 < C -> 0 < D ->
  codec_contract (codec := codec bound)
    (LZ4F_compressBound (LZ4F := codec bound) C) C D toy_decodes.
Proof.
  intros HC HD. cbn [LZ4F_compressBound codec]. constructor.
  - intros spans Hall. unfold Sink.compress_frame.
    cbn [LZ4F_createCompressionContext LZ4F_compressBegin LZ4F_compressEnd
           codec toy_begin].
    replace (bound C <? 1) with false
      by (symmetry; apply Nat.ltb_ge; unfold bound; lia).
    rewrite (toy_updates_ok C spans Hall). cbn [toy_end].
    replace (bound C <? 2) with false
      by (symmetry; apply Nat.ltb_ge; unfold bound; lia).
    discriminate.
  - exists DHeader. split; [reflexivity|].
    intros spans Z HZ. apply toy_frame in HZ. subst Z.
    unfold toy_decodes. cbn [app denote].
    change (Byte.eqb magic magic) with true. cbv iota.
    apply denote_literals.
  - unfold toy_decodes. intros d z s src rest Hd Hz Hne.
    destruct src as [|b src]; [contradiction|]. subst z.
    cbn [app denote] in Hd.
    cbn [LZ4F_decompress codec toy_decompress length].
    destruct d.
    + destruct (Byte.eqb b magic); [|discriminate].
      exists 1, [], DToken. split; [reflexivity|]. split; [lia|].
      split; [left; lia|]. exists s. split; [reflexivity | exact Hd].
    + destruct (Byte.eqb b tok_literal).
      * exists 1, [], DLiteral. split; [reflexivity|]. split; [lia|].
        split; [left; lia|]. exists s. split; [reflexivity | exact Hd].
      * destruct (Byte.eqb b tok_end); [|discriminate].
        exists 1, [], DEnd. split; [reflexivity|]. split; [lia|].
        split; [left; lia|]. exists s. split; [reflexivity | exact Hd].
    + replace (D =? 0) with false by (symmetry; apply Nat.eqb_neq; lia).
      destruct (denote DToken (src ++ rest)) as [s0|] eqn:E; [|discriminate].
      injection Hd as <-.
      exists 1, [b], DToken. split; [reflexivity|]. split; [lia|].
      split; [left; lia|]. exists s0. split; [reflexivity | exact E].
    + discriminate.
  - unfold toy_decodes. intros d s H. destruct d; try discriminate.
    now injection H as <-.
Qed.




Lemma toy_progresses (D : nat) :
  0 < D -> decoder_progresses (codec := codec bound) D.
Proof.
  intros HD d src Hne. destruct src as [|b src]; [contradiction|].
  cbn [LZ4F_decompress codec toy_decompress length].
  destruct d.
  - destruct (Byte.eqb b magic); [split; [lia | left; lia] | exact I].
  - destruct (Byte.eqb b tok_literal); [split; [lia | left; lia]|].
    destruct (Byte.eqb b tok_end); [split; [lia | left; lia] | exact I].
  - replace (D =? 0) with false by (symmetry; apply Nat.eqb_neq; lia).
    split; [lia | left; lia].
  - exact I.
Qed.

Lemma memory_reads : reads_from (upstream := memory) (fun s => s).
Proof.
  intros src n. cbn [istream_read memory fst snd].
  split; [symmetry; apply firstn_skipn|].
  split; [apply firstn_le_length|].
  intros Hn H. destruct n; [lia|]. destruct src; [reflexivity|discriminate].
Qed.

Lemma trickle_reads : reads_from (upstream := trickle) (fun s => s).
Proof.
  intros src n. cbn [istream_read trickle fst snd].
  split; [symmetry; apply firstn_skipn|].
  split; [rewrite length_firstn; lia|].
  intros Hn H. destruct n; [lia|]. destruct src; [reflexivity|discriminate].
Qed.

End ToyFacts.

(** ** The adapters on the concrete collaborators *)

Module Examples.
Import Toy ToyFacts.
#[local] Existing Instance memory.

(** Seven bytes through an [output_buffer<1>] over the storing codec:
    every byte is flushed by [overflow] on its own, [Close] flushes the
    empty put area; every call is given one byte of room. *)
Example compress_sample :
  Sink.compress (codec := stored) 1 sample
  = (Returns tt,
     Sink.mk_env
       ([magic] ++ sample ++ [tok_end])
       ([CreateCompressionContext; CompressBegin 1]
          ++ map (fun b => CompressUpdate 1 [b]) sample
          ++ [CompressUpdate 1 []; CompressEnd 1; FreeCompressionContext])).
Proof. reflexivity. Qed.

(** The frame of the literal codec read back through an
    [input_buffer<4, 2>], from a stream that holds it whole and from one
    that hands out a byte per read. *)
Example read_back_sample :
  option_map fst
    (Source.lifetime (codec := codec bound) (upstream := memory) 4 2 20 10
       (Source.mk_env (upstream := memory)
          ([magic] ++ flat_map literal sample ++ [tok_end]) []))
  = Some (Returns sample).
Proof. reflexivity. Qed.

Example read_back_sample_in_short_reads :
  option_map fst
    (Source.lifetime (codec := codec bound) (upstream := trickle) 4 2 20 10
       (Source.mk_env (upstream := trickle)
          ([magic] ++ flat_map literal sample ++ [tok_end]) []))
  = Some (Returns sample).
Proof. reflexivity. Qed.

(** The empty sequence over the storing codec: header and footer only,
    and nothing read back. *)
Example round_trip_of_nothing :
  Sink.sink (snd (Sink.compress (codec := stored) 1 []))
    = [magic; tok_end] /\
  option_map fst
    (Source.lifetime (codec := stored) (upstream := memory) 4 2 5 1
       (Source.mk_env (upstream := memory) [magic; tok_end] []))
  = Some (Returns []).
Proof. split; reflexivity. Qed.


(** C1, on the header as it is.  [m_destinationBuffer] is built from a
    list of one element, so every call on the encoder is given one byte
    of room, whatever [LZ4F_compressBound] answers (7 for a raw buffer of
    3 bytes here).  The literal codec honours the contract of the
    specification: with the room it declares it encodes every span, and
    what it encoded decodes to the bytes written.  Through an
    [output_buffer<3>] it is refused that room: writing seven bytes throws
    at the first flush, and what the sink has received by then, the header,
    reads back as the empty sequence; closing after writing nothing throws
    at the footer.  A codec that wants room for more than its header
    before it begins, as liblz4 does, makes the constructor throw. *)
Theorem one_byte_of_room_breaks_the_round_trip :
  (forall (c : LZ4F) (N : nat), Sink.destination_capacity (codec := c) N = 1) /\
  codec_contract (codec := codec bound)
    (LZ4F_compressBound (LZ4F := codec bound) 3) 3 2 toy_decodes /\
  LZ4F_compressBound (LZ4F := codec bound) 3 = 7 /\
  Sink.compress_frame (codec := codec bound) 7
    [[x61; x62; x63]; [x64; x65; x66]; [x67]] = Some sample_frame /\
  Sink.destination_capacity (codec := codec bound) 3 = 1 /\
  Sink.compress (codec := codec bound) 3 sample
  = (Throws "LZ4 compression failed: ERROR_dstMaxSize_tooSmall",
     Sink.mk_env [magic]
       [CreateCompressionContext; CompressBegin 1;
        CompressUpdate 1 [x61; x62; x63]]) /\
  option_map fst
    (Source.lifetime (codec := codec bound) (upstream := memory) 4 2 20 10
       (Source.mk_env (upstream := memory) [magic] []))
  = Some (Returns []) /\
  Sink.compress (codec := codec bound) 3 []
  = (Throws "Failed to end LZ4 compression: ERROR_dstMaxSize_tooSmall",
     Sink.mk_env [magic]
       [CreateCompressionContext; CompressBegin 1; CompressUpdate 1 [];
        CompressEnd 1]) /\
  Sink.compress (codec := cramped) 3 sample
  = (Throws "Failed to start LZ4 compression: ERROR_dstMaxSize_tooSmall",
     Sink.mk_env [] [CreateCompressionContext; CompressBegin 1]).
Proof.
  split; [intros c N; reflexivity|].
  split; [apply (toy_contract 3 2); lia|].
  repeat split.
Qed.

Lemma header_first_witness :
  Sink.construct (codec := codec bound) 3 fresh
    = (Returns (fst opened), snd opened) /\
  Sink.sink (snd opened) = [magic] /\
  Sink.put_area (fst opened) = [].
Proof.
  assert (H : Sink.construct (codec := codec bound) 3 fresh
              = (Returns (fst opened), snd opened)) by reflexivity.
  destruct (header_first (codec := codec bound) 3 fresh (fst opened)
              (snd opened) H)
    as (ctx0 & header & Hc & Hb & Hs & _ & Hp & _).
  split; [exact H|]. split; [|exact Hp].
  rewrite Hs. injection Hc as <-. injection Hb as <-. reflexivity.
Defined.

Lemma close_idempotent_witness :
  Sink.m_closed (fst holding) = false /\
  Sink.Close (codec := stored) 3 holding = (Returns tt, closed) /\
  Sink.Close (codec := stored) 3 closed = (Returns tt, closed) /\
  Sink.destroy (codec := stored) 3 closed = (Returns tt, closed) /\
  Sink.perform_all (codec := stored) 3
    [Sink.CloseNow; Sink.CloseNow; Sink.CloseNow] holding
  = (Returns tt, closed).
Proof.
  assert (H1 : Sink.m_closed (fst holding) = false) by reflexivity.
  assert (H2 : Sink.Close (codec := stored) 3 holding
               = (Returns tt, closed)) by reflexivity.
  destruct (close_idempotent (codec := stored) 3 (fst holding)
              (snd holding) closed H1 H2) as (_ & Hc & Hd & Hn).
  split; [exact H1|]. split; [exact H2|]. split; [exact Hc|].
  split; [exact Hd | exact (Hn 2)].
Defined.

(** The flush of the third byte of an [output_buffer<3>], here refused by
    the literal codec for want of room. *)
Lemma flush_at_capacity_witness :
  0 < 3 /\
  fits_int32 3 /\
  Sink.xsputn (codec := codec bound) 3 [x61; x62] opened
    = (Returns tt,
       (Sink.mk_output_buffer (codec := codec bound) [x61; x62] CBegun false,
        snd opened)) /\
  srcSize_arg 3 = 3%Z /\
  Sink.sputc (codec := codec bound) 3 x63
    (Sink.mk_output_buffer (codec := codec bound) [x61; x62] CBegun false,
     snd opened)
  = (Throws "LZ4 compression failed: ERROR_dstMaxSize_tooSmall",
     (Sink.mk_output_buffer (codec := codec bound) [] CBegun false,
      Sink.mk_env [magic]
        (Sink.calls (snd opened) ++ [CompressUpdate 1 [x61; x62; x63]]))).
Proof.
  assert (Hpos : 0 < 3) by lia.
  assert (Hfit : fits_int32 3) by reflexivity.
  destruct (flush_at_capacity (codec := codec bound) 3 (fst opened)
              (snd opened) [x61; x62] x63 Hpos Hfit eq_refl eq_refl eq_refl)
    as (Hx & _ & Hz & _ & Hs).
  split; [exact Hpos|]. split; [exact Hfit|]. split; [exact Hx|].
  split; [exact Hz | exact Hs].
Defined.

(** The same boundary over the storing codec with a raw buffer of one
    byte: the byte is flushed and reaches the sink. *)
Example flush_of_one_byte :
  Sink.sputc (codec := stored) 1 x61 ready
  = (Returns x61,
     (fst ready,
      Sink.mk_env [magic; x61]
        (Sink.calls (snd ready) ++ [CompressUpdate 1 [x61]]))).
Proof. reflexivity. Qed.

Lemma partial_consumption_witness :
  exists ib2 w2,
    Source.loop_body (codec := codec bound) 4 2 past_header
      = (Returns (Source.Written 0), (ib2, w2)) /\
    Source.m_offset ib2 = 2 /\
    Source.unconsumed ib2 = [x61; tok_end] /\
    option_map fst
      (Source.pull_loop (codec := codec bound) 4 2 2 past_header)
      = Some (Returns (Source.Written 1)) /\
    forall fuel r s',
      Source.underflow (codec := codec bound) 4 2 fuel past_header
        = Some (r, s') ->
      exists more : list call,
        Source.calls (snd s')
        = (Source.calls (snd past_header)
             ++ [Decompress 2 [tok_literal; x61; tok_end];
                 Decompress 2 [x61; tok_end]]) ++ more.
Proof.
  destruct (partial_consumption (codec := codec bound) 4 2
              past_header (fst past_header) (snd past_header)
              1 DLiteral eq_refl ltac:(discriminate) eq_refl
              ltac:(vm_compute; lia))
    as (ib2 & w2 & Hb & Ho & _ & _ & Hu & _ & _ & _ & _ & Hp & _ & Hlog).
  exists ib2, w2.
  split; [exact Hb|]. split; [exact Ho|]. split; [exact Hu|].
  split; [rewrite (Hp 0); reflexivity | exact Hlog].
Defined.

Lemma eof_persists_by_rereading_witness :
  Source.underflow (codec := codec bound) 4 2 1 (reader 2 [])
    = Some (Returns None, at_eof 1) /\
  Source.underflow (codec := codec bound) 4 2 1 (at_eof 1)
    = Some (Returns None, at_eof 2) /\
  Source.sbumpc (codec := codec bound) 4 2 1 (at_eof 1)
    = Some (Returns None, at_eof 2).
Proof.
  assert (H : Source.underflow (codec := codec bound) 4 2 1 (reader 2 [])
              = Some (Returns None, at_eof 1)) by reflexivity.
  destruct (eof_persists_by_rereading (codec := codec bound) 4 2 1
              (reader 2 []) (fst (at_eof 1)) (snd (at_eof 1)) H eq_refl)
    as (_ & _ & _ & Hnext).
  destruct (Hnext eq_refl 0) as [Hu Hs].
  split; [exact H|]. split; [exact Hu | exact (Hs (le_n 0))].
Defined.

(** C6, as stated, fails: over an exhausted stream the read that follows
    a declared end of stream performs another bulk read of the
    upstream. *)
Lemma eof_is_followed_by_upstream_reads :
  ~ Source.eof_without_further_reads (codec := codec bound) 4 2.
Proof.
  intros H.
  destruct (H 1 (reader 2 []) (at_eof 1) eq_refl eq_refl (le_n 0)
              1 (Returns None) (at_eof 2) eq_refl) as [_ Hc].
  vm_compute in Hc. discriminate.
Qed.

Lemma pull_loop_needs_progress_witness :
  Source.underflow (codec := codec bound) 4 2 20
    (reader 2 [magic; tok_literal; x61; tok_end]) <> None /\
  forall fuel : nat,
    Source.underflow (codec := codec bound) 4 0 fuel (mid_literal 0) = None.
Proof.
  split.
  - destruct (pull_loop_needs_progress (codec := codec bound) 4 2)
      as [Hterm _].
    apply (Hterm (fun s => s) memory_reads (toy_progresses 2 ltac:(lia))).
    + unfold Source.wf. simpl. lia.
    + simpl. lia.
  - destruct (pull_loop_needs_progress (codec := codec bound) 4 0)
      as [_ Hstall].
    apply (Hstall (fun d => d = DLiteral)
             (fst (mid_literal 0)) (snd (mid_literal 0))).
    + simpl. lia.
    + reflexivity.
    + intros d ->. exists DLiteral. split; reflexivity.
Defined.

Lemma codec_errors_are_fatal_witness :
  option_map fst
    (Source.underflow (codec := codec bound) 4 2 3 (reader 2 garbled))
    = Some (Throws "LZ4 decompression failed: ERROR_GENERIC") /\
  fst (Sink.construct (codec := cramped) 3 fresh)
    = Throws "Failed to start LZ4 compression: ERROR_dstMaxSize_tooSmall" /\
  fst (Sink.flush (codec := tight) 3
         (Sink.mk_output_buffer (codec := tight) [x61] CBegun false, fresh))
    = Throws "LZ4 compression failed: ERROR_dstMaxSize_tooSmall" /\
  fst (Sink.sputc (codec := tight) 2 x62
         (Sink.mk_output_buffer (codec := tight) [x61] CBegun false, fresh))
    = Throws "LZ4 compression failed: ERROR_dstMaxSize_tooSmall" /\
  fst (Sink.Close (codec := tight) 3
         (Sink.mk_output_buffer (codec := tight) [] CBegun false, fresh))
    = Throws "Failed to end LZ4 compression: ERROR_dstMaxSize_tooSmall".
Proof.
  split; [|split; [|split; [|split]]].
  - destruct (codec_errors_are_fatal (codec := codec bound)
                (upstream := memory) 3 4 2) as (Hdec & _).
    pose (s1 := match Source.after_passes (codec := codec bound) 4 2 1
                        (reader 2 garbled) with
                | Some s => s
                | None => reader 2 garbled
                end).
    destruct (Hdec (reader 2 garbled) s1 1
                (fst (Source.refilled 4 s1)) (snd (Source.refilled 4 s1))
                GENERIC eq_refl eq_refl ltac:(vm_compute; discriminate)
                eq_refl 3 ltac:(lia)) as [Hu _].
    rewrite Hu. reflexivity.
  - destruct (codec_errors_are_fatal (codec := cramped)
                (upstream := memory) 3 4 2) as (_ & Hbegin & _).
    rewrite (Hbegin fresh CFresh dstMaxSize_tooSmall eq_refl eq_refl).
    reflexivity.
  - destruct (codec_errors_are_fatal (codec := tight)
                (upstream := memory) 3 4 2) as (_ & _ & Hupd & _).
    destruct (Hupd (Sink.mk_output_buffer (codec := tight) [x61] CBegun false)
                fresh dstMaxSize_tooSmall eq_refl eq_refl) as (_ & Hf & _).
    rewrite Hf. reflexivity.
  - destruct (codec_errors_are_fatal (codec := tight)
                (upstream := memory) 2 4 2) as (_ & _ & _ & Hput & _).
    exact (Hput (Sink.mk_output_buffer (codec := tight) [x61] CBegun false)
             fresh x62 dstMaxSize_tooSmall ltac:(lia) eq_refl eq_refl eq_refl).
  - destruct (codec_errors_are_fatal (codec := tight)
                (upstream := memory) 3 4 2) as (_ & _ & _ & _ & Hend).
    exact (Hend (Sink.mk_output_buffer (codec := tight) [] CBegun false)
             fresh [] CBegun dstMaxSize_tooSmall eq_refl eq_refl eq_refl).
Defined.

(** C4, on the header as it is: after [Close] the adapter still accepts
    bytes.  An [output_buffer<3>] over the storing codec, which works with
    the one byte of room it is given, is constructed, takes a byte and is
    closed.  A [sputc] that then finds room stores the byte and returns
    it; the caller gets no error, and the byte reaches neither the
    encoder nor the sink, not even at destruction.  Only a call that gets
    as far as [CompressAndWrite] (a flush, or the byte that fills the put
    area) meets [assert(!m_closed)].  The store does not depend on the
    codec: whatever the encoder, a closed adapter with room in its put
    area takes the byte. *)
Theorem write_after_close_is_accepted :
  Sink.construct (codec := stored) 3 fresh
    = (Returns (fst ready), snd ready) /\
  Sink.sputc (codec := stored) 3 x61 ready = (Returns x61, holding) /\
  Sink.Close (codec := stored) 3 holding = (Returns tt, closed) /\
  Sink.m_closed (fst closed) = true /\
  Sink.sputc (codec := stored) 3 x62 closed
    = (Returns x62,
       (Sink.mk_output_buffer (codec := stored) [x62] CEnded true,
        snd closed)) /\
  Sink.lifetime (codec := stored) 3
    [Sink.Put x61; Sink.CloseNow; Sink.Put x62] fresh
    = (Returns tt, snd closed) /\
  Sink.flush (codec := stored) 3 closed = (Aborts, closed) /\
  (forall (c : LZ4F) (N : nat) (ob : Sink.output_buffer (codec := c))
          (w : Sink.env) (b : byte),
      Sink.m_closed ob = true ->
      length (Sink.put_area ob) < N - 1 ->
      Sink.sputc N b (ob, w)
      = (Returns b,
         (Sink.mk_output_buffer (Sink.put_area ob ++ [b]) (Sink.m_context ob)
            true, w))).
Proof.
  repeat split.
  intros c N ob w b Hc Hl. rewrite sputc_room by exact Hl. now rewrite Hc.
Qed.

(** C9, on the header as it is: when [LZ4F_compressBegin] fails the
    constructor throws after the context was created; no destructor runs
    and [LZ4F_freeCompressionContext] is never called.  Likewise when
    [LZ4F_compressEnd] fails in [Close] and again in the destructor. *)
Theorem failed_construction_leaks_the_context :
  (forall rs : list Sink.request,
      Sink.lifetime (codec := cramped) 3 rs fresh
      = (Throws "Failed to start LZ4 compression: ERROR_dstMaxSize_tooSmall",
         Sink.mk_env [] [CreateCompressionContext; CompressBegin 1])) /\
  LZ4F_createCompressionContext (LZ4F := cramped) = LZ4F_ok CFresh /\
  count is_free_cctx [CreateCompressionContext; CompressBegin 1] = 0 /\
  Sink.lifetime (codec := tight) 3 [Sink.CloseNow] fresh
  = (Aborts,
     Sink.mk_env [magic]
       [CreateCompressionContext; CompressBegin 1; CompressUpdate 1 [];
        CompressEnd 1; CompressUpdate 1 []; CompressEnd 1]).
Proof.
  split; [intros rs; reflexivity|].
  split; [reflexivity|]. split; reflexivity.
Qed.

End Examples.

(** * Further properties of the two buffers *)

(** ** The put area and what reaches the encoder *)

Section SinkCoverage.
Context {codec : LZ4F}.
Variable SrcBufSize : nat.
Import Sink.

Abbreviation dcap := (destination_capacity SrcBufSize).

Lemma fed_app (a b : list call) : fed (a ++ b) = fed a ++ fed b.
Proof. apply flat_map_app. Qed.

Lemma spans_within_app (n : nat) (a b : list call) :
  spans_within n a -> spans_within n b -> spans_within n (a ++ b).
Proof. intros Ha Hb. apply Forall_app. now split. Qed.

Lemma in_bounds_bind {A B : Type} (m : M state A) (k : A -> M state B)
    (s : state) :
  in_bounds SrcBufSize s (m s) ->
  (forall a s1, m s = (Returns a, s1) ->
                length (put_area (fst s1)) <= SrcBufSize - 1 ->
                in_bounds SrcBufSize s1 (k a s1)) ->
  in_bounds SrcBufSize s (bind m k s).
Proof.
  intros Hm Hk. unfold bind.
  destruct (m s) as [[a|what|] s1] eqn:E.
  2:{ destruct Hm as (Hb & _ & Hn). cbn [fst snd] in *.
      split; [intros _; apply Hb; discriminate|].
      split; [discriminate | exact Hn]. }
  2:{ destruct Hm as (_ & Ha & Hn). cbn [fst snd] in *.
      split; [intros H; now elim H|].
      split; [intros _; now apply Ha | exact Hn]. }
  destruct Hm as (Hb & _ & new1 & Hc1 & Hs1). cbn [fst snd] in *.
  destruct (Hk a s1 eq_refl (Hb ltac:(discriminate)))
    as (Hb2 & Ha2 & new2 & Hc2 & Hs2).
  split; [exact Hb2|]. split; [exact Ha2|].
  exists (new1 ++ new2). split; [now rewrite Hc2, Hc1, app_assoc|].
  now apply spans_within_app.
Qed.

Lemma CompressAndWrite_in_bounds (s : state) :
  length (put_area (fst s)) <= SrcBufSize ->
  in_bounds SrcBufSize s (CompressAndWrite SrcBufSize s).
Proof.
  destruct s as [ob w]. cbn [fst]. intros Hl.
  destruct (m_closed ob) eqn:Hc.
  - rewrite CompressAndWrite_closed by exact Hc. unfold in_bounds.
    cbn [fst snd]. split; [intros H; now elim H|]. split; [easy|].
    exists []. split; [now rewrite app_nil_r | constructor].
  - rewrite CompressAndWrite_open by exact Hc. cbv zeta.
    assert (Hs : spans_within SrcBufSize [CompressUpdate dcap (put_area ob)]).
    { constructor; [exact Hl | constructor]. }
    destruct (LZ4F_compressUpdate _ _ _) as [code|[out ctx']];
      unfold in_bounds; cbn [fst snd put_area calls];
      (split; [intros _; simpl; lia|]);
      (split; [discriminate|]); eexists; split; try reflexivity; exact Hs.
Qed.

Lemma sputc_in_bounds (c : byte) (s : state) :
  0 < SrcBufSize ->
  length (put_area (fst s)) <= SrcBufSize - 1 ->
  in_bounds SrcBufSize s (sputc SrcBufSize c s).
Proof.
  destruct s as [ob w]. cbn [fst]. intros Hpos Hl.
  destruct (Nat.lt_ge_cases (length (put_area ob)) (SrcBufSize - 1))
    as [Hlt|Hge].
  - rewrite sputc_room by exact Hlt. unfold in_bounds. cbn [fst snd put_area calls].
    split; [intros _; rewrite length_app; simpl; lia|].
    split; [discriminate|].
    exists []. split; [now rewrite app_nil_r | constructor].
  - rewrite sputc_full by lia.
    pose proof (CompressAndWrite_in_bounds
                  (mk_output_buffer (put_area ob ++ [c]) (m_context ob)
                     (m_closed ob), w)) as H.
    cbn [fst put_area] in H. rewrite length_app in H. simpl in H.
    specialize (H ltac:(lia)).
    destruct (CompressAndWrite SrcBufSize _) as [[[]|what|] s1];
      unfold in_bounds in *; cbn [fst snd] in *;
      destruct H as (H1 & H2 & H3).
    + split; [intros _; apply H1; discriminate|].
      split; [discriminate | exact H3].
    + split; [intros _; apply H1; discriminate|].
      split; [discriminate | exact H3].
    + split; [intros E; now elim E|].
      split; [intros _; now apply H2 | exact H3].
Qed.

Lemma xsputn_in_bounds (bs : list byte) :
  forall s : state,
    0 < SrcBufSize ->
    length (put_area (fst s)) <= SrcBufSize - 1 ->
    in_bounds SrcBufSize s (xsputn SrcBufSize bs s).
Proof.
  induction bs as [|b bs IH]; intros s Hpos Hl.
  - unfold in_bounds. cbn. split; [intros _; exact Hl|].
    split; [discriminate|].
    exists []. split; [now rewrite app_nil_r | constructor].
  - cbn [xsputn]. apply in_bounds_bind.
    + now apply sputc_in_bounds.
    + intros a s1 _ Hl1. now apply IH.
Qed.

Lemma Close_in_bounds (s : state) :
  length (put_area (fst s)) <= SrcBufSize - 1 ->
  in_bounds SrcBufSize s (Close SrcBufSize s).
Proof.
  destruct s as [ob w]. cbn [fst]. intros Hl.
  destruct (m_closed ob) eqn:Hc.
  - rewrite Close_closed by exact Hc. unfold in_bounds. cbn [fst snd].
    split; [intros _; exact Hl|]. split; [discriminate|].
    exists []. split; [now rewrite app_nil_r | constructor].
  - rewrite Close_open by exact Hc. cbv zeta.
    assert (Hu : length (put_area ob) <= SrcBufSize) by lia.
    destruct (LZ4F_compressUpdate _ _ _) as [code|[out ctx1]].
    + unfold in_bounds. cbn [fst snd put_area calls].
      split; [intros _; simpl; lia|]. split; [discriminate|].
      eexists. split; [reflexivity|]. constructor; [exact Hu | constructor].
    + destruct (LZ4F_compressEnd ctx1 _) as [code|[footer ctx2]];
        unfold in_bounds; cbn [fst snd put_area calls];
        (split; [intros _; simpl; lia|]); (split; [discriminate|]);
        eexists; (split; [rewrite <- !app_assoc; reflexivity|]);
        repeat constructor; exact Hu.
Qed.

Lemma perform_in_bounds (r : request) (s : state) :
  0 < SrcBufSize ->
  length (put_area (fst s)) <= SrcBufSize - 1 ->
  in_bounds SrcBufSize s (perform SrcBufSize r s).
Proof.
  intros Hpos Hl. destruct r as [c|bs| |]; cbn [perform].
  - apply in_bounds_bind; [now apply sputc_in_bounds|].
    intros a s1 _ Hl1. unfold in_bounds, ret. cbn [fst snd].
    split; [intros _; exact Hl1|]. split; [discriminate|].
    exists []. split; [now rewrite app_nil_r | constructor].
  - now apply xsputn_in_bounds.
  - unfold flush, sync.
    apply in_bounds_bind.
    + apply in_bounds_bind; [apply CompressAndWrite_in_bounds; lia|].
      intros a s1 _ Hl1. unfold in_bounds, ret. cbn [fst snd].
      split; [intros _; exact Hl1|]. split; [discriminate|].
      exists []. split; [now rewrite app_nil_r | constructor].
    + intros a s1 _ Hl1. unfold in_bounds, ret. cbn [fst snd].
      split; [intros _; exact Hl1|]. split; [discriminate|].
      exists []. split; [now rewrite app_nil_r | constructor].
  - now apply Close_in_bounds.
Qed.

Lemma perform_all_in_bounds (rs : list request) :
  forall s : state,
    0 < SrcBufSize ->
    length (put_area (fst s)) <= SrcBufSize - 1 ->
    in_bounds SrcBufSize s (perform_all SrcBufSize rs s).
Proof.
  induction rs as [|q rs IH]; intros s Hpos Hl.
  - unfold in_bounds. cbn. split; [intros _; exact Hl|].
    split; [discriminate|].
    exists []. split; [now rewrite app_nil_r | constructor].
  - cbn [perform_all]. apply in_bounds_bind.
    + now apply perform_in_bounds.
    + intros a s1 _ Hl1. now apply IH.
Qed.

(** X1. The put area never overruns [m_sourceBuffer], for a raw buffer of
    fewer than 2^31 bytes.  Started with at most [SrcBufSize - 1] bytes in
    the put area (as the constructor leaves it), any sequence of puts,
    writes, flushes and closes that does not abort leaves at most
    [SrcBufSize - 1] bytes there again; every call of
    [LZ4F_compressUpdate] it makes is over at most [SrcBufSize] bytes,
    and [orig_size] held their number, so that [srcSize] is the length of
    the span and [pbump] emptied the put area; and when it aborts, the
    adapter is closed: the abort is that of [assert(!m_closed)], the
    bounds assertion of [overflow] never fails. *)
Theorem put_area_stays_in_bounds (rs : list request) (s s' : state)
    (r : outcome unit) :
  0 < SrcBufSize ->
  fits_int32 SrcBufSize ->
  length (put_area (fst s)) <= SrcBufSize - 1 ->
  perform_all SrcBufSize rs s = (r, s') ->
  (r <> Aborts -> length (put_area (fst s')) <= SrcBufSize - 1) /\
  (r = Aborts -> m_closed (fst s') = true) /\
  exists new : list call,
    calls (snd s') = calls (snd s) ++ new /\
    spans_within SrcBufSize new /\
    spans_exact new.
Proof.
  intros Hpos Hfit Hl H.
  pose proof (perform_all_in_bounds rs s Hpos Hl) as Hin.
  rewrite H in Hin. destruct Hin as (Hb & Ha & new & Hc & Hw).
  split; [exact Hb|]. split; [exact Ha|].
  exists new. split; [exact Hc|]. split; [exact Hw|].
  now apply (spans_within_exact SrcBufSize).
Qed.

Lemma CompressAndWrite_conserves (s s' : state) (u : unit) :
  CompressAndWrite SrcBufSize s = (Returns u, s') ->
  fed (calls (snd s')) ++ put_area (fst s')
  = fed (calls (snd s)) ++ put_area (fst s).
Proof.
  destruct u. destruct s as [ob w]. destruct (m_closed ob) eqn:Hc.
  - rewrite CompressAndWrite_closed by exact Hc. discriminate.
  - rewrite CompressAndWrite_open by exact Hc. cbv zeta.
    destruct (LZ4F_compressUpdate _ _ _) as [code|[out ctx']];
      [discriminate|].
    intros H. injection H as <-. cbn [fst snd calls put_area].
    rewrite fed_app. cbn. now rewrite !app_nil_r.
Qed.

Lemma sputc_conserves (c a : byte) (s s' : state) :
  sputc SrcBufSize c s = (Returns a, s') ->
  fed (calls (snd s')) ++ put_area (fst s')
  = fed (calls (snd s)) ++ put_area (fst s) ++ [c].
Proof.
  destruct s as [ob w]. unfold sputc. cbn [fst].
  destruct (length (put_area ob) <? SrcBufSize - 1).
  - unfold bind, store, ret. intros H. injection H as <- <-. reflexivity.
  - unfold overflow, bind, assert.
    destruct (pptr_le_epptr SrcBufSize (ob, w)); [|discriminate].
    cbn [store].
    destruct (CompressAndWrite SrcBufSize _) as [[[]|what|] s1] eqn:E;
      try discriminate.
    unfold ret. intros H. injection H as <- <-.
    apply CompressAndWrite_conserves in E. exact E.
Qed.

Lemma xsputn_conserves (bs : list byte) :
  forall (s s' : state) (u : unit),
    xsputn SrcBufSize bs s = (Returns u, s') ->
    fed (calls (snd s')) ++ put_area (fst s')
    = fed (calls (snd s)) ++ put_area (fst s) ++ bs.
Proof.
  induction bs as [|b bs IH]; intros s s' u H; destruct u.
  - cbn in H. injection H as <-. now rewrite app_nil_r.
  - cbn [xsputn] in H. unfold bind in H.
    destruct (sputc SrcBufSize b s) as [[a|what|] s1] eqn:E;
      try discriminate.
    apply sputc_conserves in E. apply IH in H. rewrite H, app_assoc, E.
    now rewrite <- !app_assoc.
Qed.

Lemma Close_conserves (s s' : state) (u : unit) :
  Close SrcBufSize s = (Returns u, s') ->
  fed (calls (snd s')) ++ put_area (fst s')
  = fed (calls (snd s)) ++ put_area (fst s).
Proof.
  destruct u. destruct s as [ob w]. destruct (m_closed ob) eqn:Hc.
  - rewrite Close_closed by exact Hc. now intros H; injection H as <-.
  - rewrite Close_open by exact Hc. cbv zeta.
    destruct (LZ4F_compressUpdate _ _ _) as [code|[out ctx1]];
      [discriminate|].
    destruct (LZ4F_compressEnd ctx1 _) as [code|[footer ctx2]];
      [discriminate|].
    intros H. injection H as <-. cbn [fst snd calls put_area].
    rewrite !fed_app. cbn. now rewrite !app_nil_r.
Qed.

Lemma perform_all_conserves (rs : list request) :
  forall (s s' : state) (u : unit),
    perform_all SrcBufSize rs s = (Returns u, s') ->
    fed (calls (snd s')) ++ put_area (fst s')
    = fed (calls (snd s)) ++ put_area (fst s) ++ flat_map written_by rs.
Proof.
  induction rs as [|r rs IH]; intros s s' u H; destruct u.
  - cbn in H. injection H as <-. cbn. now rewrite app_nil_r.
  - cbn [perform_all] in H. unfold bind in H.
    destruct (perform SrcBufSize r s) as [[[]|what|] s1] eqn:E;
      try discriminate.
    apply IH in H. rewrite H. cbn [flat_map].
    assert (E1 : fed (calls (snd s1)) ++ put_area (fst s1)
                 = fed (calls (snd s)) ++ put_area (fst s) ++ written_by r).
    { destruct r as [c|bs| |]; cbn [perform written_by] in *.
      - unfold bind, ret in E.
        destruct (sputc SrcBufSize c s) as [[a|what|] s2] eqn:E2;
          try discriminate.
        injection E as <-. now apply sputc_conserves in E2.
      - now apply xsputn_conserves in E.
      - unfold flush, sync, bind, ret in E.
        destruct (CompressAndWrite SrcBufSize s) as [[[]|what|] s2] eqn:E2;
          try discriminate.
        injection E as <-. apply CompressAndWrite_conserves in E2.
        now rewrite app_nil_r.
      - apply Close_conserves in E. now rewrite app_nil_r. }
    rewrite app_assoc, E1. now rewrite <- !app_assoc.
Qed.

(** X2. No byte is lost, repeated or reordered on its way to the
    encoder, for a raw buffer of fewer than 2^31 bytes.  Started with the
    put area within [epptr()], after any sequence of puts, writes, flushes
    and closes that returns, the bytes offered to [LZ4F_compressUpdate] so
    far, followed by the bytes still in the put area, are what they were
    before followed by the bytes of the requests, in order; and every
    span was offered with its own length as [srcSize]. *)
Theorem bytes_are_conserved (rs : list request) (s s' : state) (u : unit) :
  0 < SrcBufSize ->
  fits_int32 SrcBufSize ->
  length (put_area (fst s)) <= SrcBufSize - 1 ->
  perform_all SrcBufSize rs s = (Returns u, s') ->
  fed (calls (snd s')) ++ put_area (fst s')
  = fed (calls (snd s)) ++ put_area (fst s) ++ flat_map written_by rs /\
  exists new : list call,
    calls (snd s') = calls (snd s) ++ new /\ spans_exact new.
Proof.
  intros Hpos Hfit Hl H.
  split; [exact (perform_all_conserves rs s s' u H)|].
  pose proof (perform_all_in_bounds rs s Hpos Hl) as Hin.
  rewrite H in Hin. destruct Hin as (_ & _ & new & Hc & Hw).
  exists new. split; [exact Hc|].
  now apply (spans_within_exact SrcBufSize).
Qed.

Lemma chunk_sizes (bs : list byte) :
  forall pending : list byte,
    0 < SrcBufSize ->
    length pending <= SrcBufSize - 1 ->
    Forall (fun src => length src = SrcBufSize)
      (fst (chunk SrcBufSize pending bs)) /\
    length (snd (chunk SrcBufSize pending bs)) < SrcBufSize.
Proof.
  induction bs as [|b bs IH]; intros pending Hpos Hl; cbn [chunk].
  - cbn. split; [constructor | lia].
  - destruct (length pending <? SrcBufSize - 1) eqn:E.
    + apply Nat.ltb_lt in E. apply IH; [exact Hpos|].
      rewrite length_app. simpl. lia.
    + apply Nat.ltb_ge in E.
      destruct (IH [] Hpos) as (H1 & H2); [simpl; lia|].
      destruct (chunk SrcBufSize [] bs) as [spans rest]. cbn [fst snd] in *.
      split; [|exact H2].
      constructor; [|exact H1]. rewrite length_app. simpl. lia.
Qed.

(** A write that returns was accepted span by span. *)
Lemma xsputn_returns (bs : list byte) :
  forall (ob : output_buffer) (w : env) (s' : state) (u : unit),
    m_closed ob = false ->
    length (put_area ob) <= SrcBufSize - 1 ->
    xsputn SrcBufSize bs (ob, w) = (Returns u, s') ->
    exists outs ctx',
      compress_updates dcap (m_context ob)
        (fst (chunk SrcBufSize (put_area ob) bs)) = Some (outs, ctx').
Proof.
  induction bs as [|b bs IH]; intros [pa ctx cl] w s' u Hc Hl H;
    cbn [put_area m_context m_closed] in *; subst cl.
  - eexists _, _. reflexivity.
  - cbn [xsputn] in H. unfold bind in H. cbn [chunk].
    destruct (length pa <? SrcBufSize - 1) eqn:E.
    + apply Nat.ltb_lt in E. rewrite sputc_room in H by exact E.
      cbn [put_area m_context m_closed] in H.
      apply (IH (mk_output_buffer (pa ++ [b]) ctx false) w s' u);
        cbn [put_area m_closed]; auto.
      rewrite length_app. simpl. lia.
    + apply Nat.ltb_ge in E.
      rewrite sputc_full in H by (cbn [put_area]; lia).
      rewrite CompressAndWrite_open in H by reflexivity.
      cbn [put_area m_context m_closed sink calls] in H. cbv zeta in H.
      destruct (chunk SrcBufSize [] bs) as [spans rest] eqn:Ech.
      cbn [fst compress_updates].
      destruct (LZ4F_compressUpdate ctx dcap (pa ++ [b])) as [code|[out c0]];
        [discriminate|].
      destruct (IH (mk_output_buffer [] c0 false) _ s' u eq_refl
                  ltac:(simpl; lia) H) as (outs & ctx' & Hs).
      cbn [put_area m_context] in Hs. rewrite Ech in Hs. cbn [fst] in Hs.
      rewrite Hs. eexists _, _. reflexivity.
Qed.

(** X4. What a whole stream looks like to the encoder, for a raw buffer
    of fewer than 2^31 bytes.  When writing [S] to a fresh adapter and
    closing it returns, the history is: create, begin, one update per
    span, end, free, every call with one byte of room, where the spans
    are [S] cut into pieces of exactly [SrcBufSize] bytes followed by one
    last piece of fewer than [SrcBufSize] bytes (empty when [S] is empty
    or a multiple of [SrcBufSize]), each offered with its own length as
    [srcSize]; the sink holds the frame of these spans. *)
Theorem write_then_close_calls (S : list byte) (w : env) :
  0 < SrcBufSize ->
  fits_int32 SrcBufSize ->
  compress SrcBufSize S = (Returns tt, w) ->
  dcap = 1 /\
  exists (spans : list (list byte)) (rest : list byte),
    calls w =
      [CreateCompressionContext; CompressBegin dcap]
        ++ map (CompressUpdate dcap) (spans ++ [rest])
        ++ [CompressEnd dcap; FreeCompressionContext] /\
    Forall (fun src => length src = SrcBufSize) spans /\
    length rest < SrcBufSize /\
    concat spans ++ rest = S /\
    Forall (fun src => cast_exact (length src)) (spans ++ [rest]) /\
    compress_frame dcap (spans ++ [rest]) = Some (sink w).
Proof.
  intros Hpos Hfit H. split; [reflexivity|].
  exists (fst (chunk SrcBufSize [] S)), (snd (chunk SrcBufSize [] S)).
  destruct (chunk_sizes S [] Hpos ltac:(simpl; lia)) as [Hsz Hrest].
  destruct (chunk_spec SrcBufSize S [] Hpos ltac:(simpl; lia))
    as (Hcat & _ & _).
  unfold compress in H. rewrite construct_cases in H. cbv zeta in H.
  unfold compress_frame.
  destruct LZ4F_createCompressionContext as [code|ctx0]; [discriminate|].
  destruct (LZ4F_compressBegin ctx0 dcap) as [code|[header ctx1]];
    [discriminate|].
  unfold bind in H.
  destruct (xsputn SrcBufSize S _) as [[[]|what|] s1] eqn:Hx;
    try (destruct s1; discriminate).
  pose proof Hx as Hu.
  apply xsputn_returns in Hu; [|reflexivity|simpl; lia].
  destruct Hu as (outs & c1 & Hu).
  cbn [put_area m_context] in Hu.
  rewrite xsputn_chunk with (outs := outs) (ctx' := c1) in Hx;
    [|reflexivity|simpl; lia|exact Hu].
  injection Hx as <-. cbn [put_area m_context sink calls] in H.
  rewrite Close_open in H by reflexivity. cbv zeta in H.
  cbn [put_area m_context sink calls] in H.
  rewrite compress_updates_app, Hu. cbn [compress_updates].
  destruct (LZ4F_compressUpdate c1 dcap _) as [code|[o2 c2]];
    [discriminate|].
  destruct (LZ4F_compressEnd c2 dcap) as [code|[footer c3]]; [discriminate|].
  injection H as <-. cbn [sink calls].
  split.
  { rewrite map_app. cbn [map app]. rewrite <- !app_assoc. reflexivity. }
  split; [exact Hsz|]. split; [exact Hrest|]. split; [exact Hcat|].
  split.
  { apply Forall_app. split.
    - apply (Forall_impl _ (P := fun src => length src = SrcBufSize));
        [|exact Hsz].
      intros src ->. now apply cast_exact_of_fits.
    - constructor; [|constructor]. apply cast_exact_of_fits.
      unfold fits_int32 in *. lia. }
  rewrite app_nil_r, <- !app_assoc. reflexivity.
Qed.

(** X5. A flush that fails drops what was buffered, for a put area of
    fewer than 2^31 bytes.  [CompressAndWrite] moves [pptr()] back by
    [orig_size], which then empties the put area, before it calls the
    encoder: when the encoder reports an error the call throws with the
    put area already empty and the adapter still open, so a later flush
    (or the [Close] of the destructor) offers the encoder the empty span
    and not the bytes of the failed one. *)
Theorem failed_flush_drops_the_span (ob : output_buffer) (w : env)
    (code : errcode) :
  m_closed ob = false ->
  fits_int32 (length (put_area ob)) ->
  LZ4F_compressUpdate (m_context ob) dcap (put_area ob) = LZ4F_error code ->
  after_pbump (length (put_area ob)) = 0%Z /\
  exists s1 : state,
    snd (flush SrcBufSize (ob, w)) = s1 /\
    put_area (fst s1) = [] /\
    m_closed (fst s1) = false /\
    sink (snd s1) = sink w /\
    calls (snd (snd (flush SrcBufSize s1)))
      = calls w ++ [CompressUpdate dcap (put_area ob); CompressUpdate dcap []]
    /\
    exists rest : list call,
      calls (snd (snd (Close SrcBufSize s1)))
      = calls w ++ [CompressUpdate dcap (put_area ob); CompressUpdate dcap []]
          ++ rest.
Proof.
  intros Hc Hfit He.
  split; [exact (proj1 (cast_exact_of_fits _ Hfit))|].
  eexists. split; [reflexivity|].
  unfold flush, sync, bind.
  rewrite CompressAndWrite_open by exact Hc. cbv zeta. rewrite He.
  cbn [fst snd put_area m_closed m_context sink calls].
  split; [reflexivity|]. split; [reflexivity|]. split; [reflexivity|].
  rewrite CompressAndWrite_open, Close_open by reflexivity. cbv zeta.
  cbn [put_area m_context sink calls].
  split.
  - destruct (LZ4F_compressUpdate (m_context ob) dcap []) as [c2|[out c2]];
      cbn [snd calls]; now rewrite <- app_assoc.
  - destruct (LZ4F_compressUpdate (m_context ob) dcap []) as [c2|[out c2]].
    + exists []. cbn [snd calls]. now rewrite <- app_assoc.
    + destruct (LZ4F_compressEnd c2 dcap) as [c3|[footer c3]];
        eexists; cbn [snd calls]; rewrite <- !app_assoc; reflexivity.
Qed.

End SinkCoverage.

(** ** The reading side: bounds, calls and order *)

Section SourceCoverage.
Context {codec : LZ4F} {upstream : ByteSource}.
Variables SrcBufSize DestBufSize : nat.
Hypothesis Hdec : decoder_bounded DestBufSize.
Hypothesis Hsrc : source_bounded.
Import Source.

Abbreviation follows' := (follows SrcBufSize DestBufSize).
Abbreviation inv' := (inv SrcBufSize DestBufSize).

Lemma follows_refl (s : state) : inv' (fst s) -> follows' s s.
Proof.
  intros Hi. split; [exact Hi|].
  exists []. split; [now rewrite app_nil_r | constructor].
Qed.

Lemma follows_trans (s1 s2 s3 : state) :
  follows' s1 s2 -> follows' s2 s3 -> follows' s1 s3.
Proof.
  intros (_ & n1 & Hc1 & Ho1) (Hi & n2 & Hc2 & Ho2).
  split; [exact Hi|].
  exists (n1 ++ n2). split; [now rewrite Hc2, Hc1, app_assoc|].
  apply Forall_app. now split.
Qed.

(** One pass of the loop body. *)
Lemma loop_body_follows (s : state) :
  inv' (fst s) ->
  follows' s (snd (loop_body SrcBufSize DestBufSize s)) /\
  (forall n, fst (loop_body SrcBufSize DestBufSize s) = Returns (Written n) ->
             n <= DestBufSize).
Proof.
  destruct s as [ib w]. cbn [fst]. intros (Hwf & Hdl & Hg & He).
  rewrite loop_body_refilled.
  pose proof (Hsrc (source w) SrcBufSize) as Hb.
  destruct (wf_refilled SrcBufSize ib w Hb Hwf) as [Hwf1 Hlt].
  assert (Hr : follows' (ib, w) (refilled SrcBufSize (ib, w))).
  { split.
    - split; [exact Hwf1|].
      destruct (Nat.eq_dec (m_offset ib) (m_sourceBufferSize ib)) as [E|E].
      + rewrite refilled_read by exact E. cbn. auto.
      + rewrite refilled_keep by exact E. cbn. auto.
    - destruct (Nat.eq_dec (m_offset ib) (m_sourceBufferSize ib)) as [E|E].
      + rewrite refilled_read by exact E. cbn [snd calls].
        eexists. split; [reflexivity|].
        constructor; [|constructor]. cbn. split; [reflexivity | exact Hb].
      + rewrite refilled_keep by exact E. exists [].
        split; [now rewrite app_nil_r | constructor]. }
  destruct Hr as (Hi1 & Hc1).
  destruct (refilled SrcBufSize (ib, w)) as [ib1 w1]. cbn [fst snd] in *.
  assert (Hr : follows' (ib, w) (ib1, w1)) by (split; assumption).
  destruct (Nat.eq_dec (m_sourceBufferSize ib1) 0) as [Hz|Hnz].
  { rewrite decode_eof by exact Hz. cbn [fst snd].
    split; [exact Hr | discriminate]. }
  rewrite decode_cases by exact Hnz. cbv zeta.
  specialize (Hlt Hnz).
  pose proof (unconsumed_wf SrcBufSize ib1 Hwf1) as Hlen.
  assert (Hord : orderly SrcBufSize DestBufSize
                   (Decompress DestBufSize (unconsumed ib1))).
  { cbn. split; [reflexivity|]. split.
    - intros E. rewrite E in Hlen. simpl in Hlen. lia.
    - destruct Hwf1 as (_ & _ & Hs). lia. }
  pose proof (Hdec (m_context ib1) (unconsumed ib1)) as Hd.
  destruct Hi1 as (_ & Hdl1 & Hg1 & He1).
  destruct (LZ4F_decompress (m_context ib1) DestBufSize (unconsumed ib1))
    as [code|[[c out] ctx']]; cbn [fst snd].
  - split; [|discriminate].
    apply (follows_trans _ (ib1, w1)); [exact Hr|].
    split; [split; [exact Hwf1 | auto]|].
    exists [Decompress DestBufSize (unconsumed ib1)]. cbn [snd calls].
    split; [reflexivity | constructor; [exact Hord | constructor]].
  - destruct Hd as [Hc Ho]. split.
    + apply (follows_trans _ (ib1, w1)); [exact Hr|].
      split.
      * split; [now apply wf_advance|]. cbn.
        unfold overwrite. rewrite length_app, length_skipn.
        split; [lia | auto].
      * exists [Decompress DestBufSize (unconsumed ib1)]. cbn [snd calls].
        split; [reflexivity | constructor; [exact Hord | constructor]].
    + intros n H. injection H as <-. exact Ho.
Qed.

Lemma pull_loop_follows (fuel : nat) :
  forall (s s' : state) (r : outcome pass),
    inv' (fst s) ->
    pull_loop SrcBufSize DestBufSize fuel s = Some (r, s') ->
    follows' s s' /\
    (forall n, r = Returns (Written n) -> 0 < n /\ n <= DestBufSize).
Proof.
  induction fuel as [|fuel IH]; intros s s' r Hi H; cbn [pull_loop] in H;
    [discriminate|].
  destruct (loop_body_follows s Hi) as [Hf Hn].
  destruct (loop_body SrcBufSize DestBufSize s) as [[[|[|n]]|what|] s1];
    cbn [fst snd] in *.
  - injection H as <- <-. split; [exact Hf | discriminate].
  - destruct (IH s1 s' r (proj1 Hf) H) as [Hf2 Hn2].
    split; [now apply (follows_trans _ s1) | exact Hn2].
  - injection H as <- <-. split; [exact Hf|].
    intros m E. injection E as <-. split; [lia | now apply Hn].
  - injection H as <- <-. split; [exact Hf | discriminate].
  - injection H as <- <-. split; [exact Hf | discriminate].
Qed.

Lemma sbumpc_follows (fuel : nat) (s s' : state) (r : outcome (option byte)) :
  inv' (fst s) ->
  sbumpc SrcBufSize DestBufSize fuel s = Some (r, s') ->
  follows' s s'.
Proof.
  destruct s as [ib w]. cbn [fst]. intros Hi H. unfold sbumpc in H.
  destruct (gptr ib <? egptr ib) eqn:E.
  - apply Nat.ltb_lt in E. injection H as <- <-.
    destruct Hi as (Hwf & Hdl & Hg & He).
    split.
    + split; [exact Hwf|]. cbn. split; [exact Hdl|]. split; [lia | exact He].
    + exists []. split; [now rewrite app_nil_r | constructor].
  - unfold underflow in H.
    destruct (pull_loop SrcBufSize DestBufSize fuel (ib, w))
      as [[[[|n]|what|] [ib1 w1]]|] eqn:Hp; try discriminate;
      destruct (pull_loop_follows fuel (ib, w) _ _ Hi Hp) as [Hf Hn].
    + injection H as <- <-. exact Hf.
    + injection H as <- <-.
      destruct (Hn n eq_refl) as [Hpos Hle].
      destruct Hf as ((Hwf & Hdl & _ & _) & Hc).
      split; [|exact Hc].
      split; [exact Hwf|]. cbn. split; [exact Hdl|]. split; lia.
    + injection H as <- <-. exact Hf.
    + injection H as <- <-. exact Hf.
Qed.

Lemma sgetn_follows (fuel n : nat) :
  forall (s s' : state) (r : outcome (list byte)),
    inv' (fst s) ->
    sgetn SrcBufSize DestBufSize fuel n s = Some (r, s') ->
    follows' s s'.
Proof.
  induction n as [|n IH]; intros s s' r Hi H; cbn [sgetn] in H.
  - injection H as <- <-. now apply follows_refl.
  - destruct (sbumpc SrcBufSize DestBufSize fuel s)
      as [[[[c|]|what|] s1]|] eqn:Hs; try discriminate;
      apply (sbumpc_follows fuel _ _ _ Hi) in Hs;
      try (injection H as <- <-; exact Hs).
    destruct (sgetn SrcBufSize DestBufSize fuel n s1)
      as [[[bs|what|] s2]|] eqn:Hr; try discriminate;
      apply (IH _ _ _ (proj1 Hs)) in Hr; injection H as <- <-;
      now apply (follows_trans _ s1).
Qed.

Lemma construct_inv (w w1 : env) (ib : input_buffer) :
  construct SrcBufSize DestBufSize w = (Returns ib, w1) -> inv' ib.
Proof.
  unfold construct.
  destruct LZ4F_createDecompressionContext as [code|ctx]; [discriminate|].
  intros H. injection H as <- <-.
  unfold inv, wf. cbn. rewrite !repeat_length. repeat split; lia.
Qed.

(** X6. The bounds of the reader.  With a decoder that takes no more
    than offered and produces no more than there is room for, and an
    upstream whose [read] stores no more bytes than it was asked for, the
    constructed object satisfies
    [m_offset <= m_sourceBufferSize <= SrcBufSize], both arrays have
    their declared size and the get area lies inside [destinationBuffer];
    every read of any number of bytes keeps this, however it ends. *)
Theorem reader_keeps_its_bounds :
  (forall (w w1 : env) (ib : input_buffer),
      construct SrcBufSize DestBufSize w = (Returns ib, w1) -> inv' ib) /\
  (forall (fuel n : nat) (s s' : state) (r : outcome (list byte)),
      inv' (fst s) ->
      sgetn SrcBufSize DestBufSize fuel n s = Some (r, s') ->
      inv' (fst s')).
Proof.
  split; [exact construct_inv|].
  intros fuel n s s' r Hi H. exact (proj1 (sgetn_follows fuel n s s' r Hi H)).
Qed.

(** X7. What the reader asks of its collaborators, under the same two
    assumptions.  In any read, every bulk read of the upstream asks for
    exactly [SrcBufSize] bytes, and every call of [LZ4F_decompress]
    offers a non-empty span of at most [SrcBufSize] bytes with
    [DestBufSize] bytes of room; the reader creates and frees nothing
    while reading. *)
Theorem reader_calls_are_orderly (fuel n : nat) (s s' : state)
    (r : outcome (list byte)) :
  inv' (fst s) ->
  sgetn SrcBufSize DestBufSize fuel n s = Some (r, s') ->
  exists new : list call,
    calls (snd s') = calls (snd s) ++ new /\
    Forall (orderly SrcBufSize DestBufSize) new.
Proof.
  intros Hi H. exact (proj2 (sgetn_follows fuel n s s' r Hi H)).
Qed.

End SourceCoverage.

(** ** The reading side: the order of the bytes *)

Section SourceOrder.
Context {codec : LZ4F} {upstream : ByteSource}.
Variables SrcBufSize DestBufSize : nat.
Variable content : istream -> list byte.
Hypothesis Hsrc : reads_from content.
Import Source.

Abbreviation feeds' := (feeds content).

Lemma taken_app (a : list call) :
  forall (b : list call) (d : dctx),
    taken d (a ++ b)
    = (fst (taken d a) ++ fst (taken (snd (taken d a)) b),
       snd (taken (snd (taken d a)) b)).
Proof.
  induction a as [|c a IH]; intros b d; cbn [app taken].
  - cbn [fst snd app]. now destruct (taken d b).
  - destruct c; try apply IH.
    destruct (LZ4F_decompress d dstCapacity src) as [code|[[n out] d']];
      [apply IH|].
    rewrite IH. destruct (taken d' a) as [x d1]. cbn [fst snd].
    now rewrite app_assoc.
Qed.

Lemma read_in_app (a b : list call) : read_in (a ++ b) = read_in a ++ read_in b.
Proof. apply flat_map_app. Qed.

(** Nothing moves while the session, the span and the environment stay
    as they are. *)
Lemma feeds_same (s s' : state) :
  snd s' = snd s ->
  m_context (fst s') = m_context (fst s) ->
  unconsumed (fst s') = unconsumed (fst s) ->
  feeds' s s'.
Proof.
  intros He Hc Hu. exists [], []. rewrite He, Hc, Hu.
  cbn [taken read_in flat_map app]. rewrite !app_nil_r. auto.
Qed.

Lemma feeds_trans (s1 s2 s3 : state) :
  feeds' s1 s2 -> feeds' s2 s3 -> feeds' s1 s3.
Proof.
  intros (n1 & t1 & Hc1 & Ht1 & Hu1 & Hs1) (n2 & t2 & Hc2 & Ht2 & Hu2 & Hs2).
  exists (n1 ++ n2), (t1 ++ t2).
  split; [now rewrite Hc2, Hc1, app_assoc|].
  split; [rewrite taken_app, Ht1; cbn [fst snd]; now rewrite Ht2|].
  split.
  - rewrite read_in_app, app_assoc, Hu1, <- app_assoc, Hu2.
    now rewrite app_assoc.
  - now rewrite read_in_app, Hs1, Hs2, app_assoc.
Qed.

(** One pass of the loop body: a bulk read moves bytes from the upstream
    to the span, a call of the decoder takes the bytes it reports from the
    front of the span. *)
Lemma loop_body_feeds (s : state) :
  feeds' s (snd (loop_body SrcBufSize DestBufSize s)).
Proof.
  rewrite loop_body_refilled. destruct s as [ib w].
  assert (Hr : feeds' (ib, w) (refilled SrcBufSize (ib, w))).
  { destruct (Nat.eq_dec (m_offset ib) (m_sourceBufferSize ib)) as [E|E].
    - rewrite refilled_read by exact E. cbv zeta.
      exists [SourceRead SrcBufSize (fst (istream_read (source w) SrcBufSize))],
             [].
      cbn [fst snd calls source m_context taken read_in flat_map app].
      rewrite unconsumed_overwrite, app_nil_r.
      split; [reflexivity|]. split; [reflexivity|]. split.
      + unfold unconsumed. now rewrite E, Nat.sub_diag.
      + exact (proj1 (Hsrc (source w) SrcBufSize)).
    - rewrite refilled_keep by exact E. now apply feeds_same. }
  apply (feeds_trans _ (refilled SrcBufSize (ib, w))); [exact Hr|].
  clear Hr. destruct (refilled SrcBufSize (ib, w)) as [ib1 w1].
  destruct (Nat.eq_dec (m_sourceBufferSize ib1) 0) as [Hz|Hnz].
  { rewrite decode_eof by exact Hz. now apply feeds_same. }
  rewrite decode_cases by exact Hnz. cbv zeta.
  destruct (LZ4F_decompress (m_context ib1) DestBufSize (unconsumed ib1))
    as [code|[[c out] ctx']] eqn:Hd; cbn [fst snd].
  - exists [Decompress DestBufSize (unconsumed ib1)], [].
    cbn [fst snd calls source taken read_in flat_map app]. rewrite Hd.
    rewrite app_nil_r. auto.
  - exists [Decompress DestBufSize (unconsumed ib1)],
           (firstn c (unconsumed ib1)).
    cbn [fst snd calls source m_context taken read_in flat_map app].
    rewrite Hd, unconsumed_advance, !app_nil_r, firstn_skipn. auto.
Qed.

Lemma pull_loop_feeds (fuel : nat) :
  forall (s s' : state) (r : outcome pass),
    pull_loop SrcBufSize DestBufSize fuel s = Some (r, s') -> feeds' s s'.
Proof.
  induction fuel as [|fuel IH]; intros s s' r H; cbn [pull_loop] in H;
    [discriminate|].
  pose proof (loop_body_feeds s) as Hf.
  destruct (loop_body SrcBufSize DestBufSize s) as [[[|[|n]]|what|] s1];
    cbn [snd] in Hf; try (injection H as <- <-; exact Hf).
  apply (feeds_trans _ s1); [exact Hf | now apply (IH s1 s' r)].
Qed.

Lemma sbumpc_feeds (fuel : nat) (s s' : state) (r : outcome (option byte)) :
  sbumpc SrcBufSize DestBufSize fuel s = Some (r, s') -> feeds' s s'.
Proof.
  destruct s as [ib w]. intros H. unfold sbumpc in H.
  destruct (gptr ib <? egptr ib).
  - injection H as <- <-. now apply feeds_same.
  - unfold underflow in H.
    destruct (pull_loop SrcBufSize DestBufSize fuel (ib, w))
      as [[[[|n]|what|] [ib1 w1]]|] eqn:Hp; try discriminate;
      apply pull_loop_feeds in Hp; injection H as <- <-; exact Hp.
Qed.

Lemma sgetn_feeds (fuel n : nat) :
  forall (s s' : state) (r : outcome (list byte)),
    sgetn SrcBufSize DestBufSize fuel n s = Some (r, s') -> feeds' s s'.
Proof.
  induction n as [|n IH]; intros s s' r H; cbn [sgetn] in H.
  - injection H as <- <-. now apply feeds_same.
  - destruct (sbumpc SrcBufSize DestBufSize fuel s)
      as [[[[c|]|what|] s1]|] eqn:Hs; try discriminate;
      apply sbumpc_feeds in Hs; try (injection H as <- <-; exact Hs).
    destruct (sgetn SrcBufSize DestBufSize fuel n s1)
      as [[[bs|what|] s2]|] eqn:Hr; try discriminate;
      apply IH in Hr; injection H as <- <-;
      now apply (feeds_trans _ s1).
Qed.

(** X8. The upstream's bytes go through the decoder in order.  With a
    decoder that takes no more than offered and produces no more than
    there is room for, an upstream that obeys the byte-stream contract,
    and the reader within its bounds: over any read, the calls it adds to
    the history are bulk reads and calls of the decoder on non-empty
    spans inside [sourceBuffer]; they read [read_in new] from the front
    of what the upstream held; the span that was unconsumed, followed by
    these bytes, is what the decoder took in these calls (of each span
    offered, the bytes it reported as consumed, replayed from the session
    the read started with), followed by the span now unconsumed.  So what
    was still to go through the decoder is what the decoder took followed
    by what is still to go through it: no byte is skipped and none is
    taken twice. *)
Theorem reader_consumes_in_order (fuel n : nat) (s s' : state)
    (r : outcome (list byte)) :
  decoder_bounded DestBufSize ->
  inv SrcBufSize DestBufSize (fst s) ->
  sgetn SrcBufSize DestBufSize fuel n s = Some (r, s') ->
  exists (new : list call) (took : list byte),
    calls (snd s') = calls (snd s) ++ new /\
    Forall (orderly SrcBufSize DestBufSize) new /\
    taken (m_context (fst s)) new = (took, m_context (fst s')) /\
    unconsumed (fst s) ++ read_in new = took ++ unconsumed (fst s') /\
    content (source (snd s)) = read_in new ++ content (source (snd s')) /\
    pending content s = took ++ pending content s'.
Proof.
  intros Hdec Hi H.
  destruct (sgetn_feeds fuel n s s' r H) as (new & took & Hc & Ht & Hu & Hs0).
  assert (Hb : source_bounded)
    by (intros src k; exact (proj1 (proj2 (Hsrc src k)))).
  destruct (sgetn_follows SrcBufSize DestBufSize Hdec Hb fuel n s s' r Hi H)
    as (_ & new' & Hc' & Ho).
  assert (new' = new) by (rewrite Hc in Hc'; now apply app_inv_head in Hc').
  subst new'. exists new, took.
  split; [exact Hc|]. split; [exact Ho|]. split; [exact Ht|].
  split; [exact Hu|]. split; [exact Hs0|].
  unfold pending. now rewrite Hs0, app_assoc, Hu, <- app_assoc.
Qed.

End SourceOrder.

(** ** The get area *)

Section GetArea.
Context {codec : LZ4F} {upstream : ByteSource}.
Variables SrcBufSize InBufSize DestBufSize : nat.
Import Source.

Lemma skipn_hd (l : list byte) :
  forall n : nat, n < length l -> skipn n l = nth n l x00 :: skipn (S n) l.
Proof.
  induction l as [|x l IH]; intros n Hn; simpl in Hn; [lia|].
  destruct n as [|n]; [reflexivity|].
  cbn [skipn nth]. apply IH. lia.
Qed.

(** The get area is its first byte followed by the get area after
    [gbump(1)]. *)
Lemma get_area_step (ib : input_buffer) :
  gptr ib < egptr ib ->
  egptr ib <= length (destinationBuffer ib) ->
  get_area ib = deref_gptr ib :: get_area (gbump1 ib).
Proof.
  intros Hg He. unfold get_area, deref_gptr.
  cbn [gbump1 gptr egptr destinationBuffer].
  rewrite (skipn_hd (destinationBuffer ib) (gptr ib)) by lia.
  replace (egptr ib - gptr ib) with (S (egptr ib - S (gptr ib))) by lia.
  reflexivity.
Qed.

(** With [n] bytes left in the get area, reading [n] bytes takes them
    from there and touches neither the upstream nor the decoder. *)
Lemma sgetn_get_area (fuel n : nat) :
  forall (ib : input_buffer) (w : env),
    gptr ib + n <= egptr ib ->
    egptr ib <= length (destinationBuffer ib) ->
    sgetn InBufSize DestBufSize fuel n (ib, w)
    = Some (Returns (firstn n (get_area ib)),
            (mk_input_buffer (sourceBuffer ib) (destinationBuffer ib)
               (m_offset ib) (m_sourceBufferSize ib) (m_context ib)
               (gptr ib + n) (egptr ib), w)).
Proof.
  induction n as [|n IH]; intros ib w Hg He; cbn [sgetn].
  - rewrite Nat.add_0_r. destruct ib; reflexivity.
  - unfold sbumpc.
    replace (gptr ib <? egptr ib) with true
      by (symmetry; apply Nat.ltb_lt; lia).
    rewrite IH by (cbn [gbump1 gptr egptr destinationBuffer]; lia).
    rewrite (get_area_step ib) by lia.
    cbn [firstn gbump1 gptr egptr sourceBuffer destinationBuffer m_offset
           m_sourceBufferSize m_context].
    replace (S (gptr ib) + n) with (gptr ib + S n) by lia. reflexivity.
Qed.

(** When the loop leaves with [writtenSize = n], [n] is not zero and the
    first [n] bytes of [destinationBuffer] are what the last call of the
    decoder produced. *)
Lemma pull_loop_written (fuel : nat) :
  forall (s : state) (n : nat) (ib' : input_buffer) (w' : env),
    pull_loop InBufSize DestBufSize fuel s
      = Some (Returns (Written n), (ib', w')) ->
    exists (d : dctx) (src : list byte) (consumed : nat) (out : list byte),
      LZ4F_decompress d DestBufSize src
        = LZ4F_ok (consumed, out, m_context ib') /\
      out <> [] /\
      length out = n /\
      firstn n (destinationBuffer ib') = out /\
      exists before, calls w' = before ++ [Decompress DestBufSize src].
Proof.
  induction fuel as [|fuel IH]; intros s n ib' w' H; cbn [pull_loop] in H;
    [discriminate|].
  destruct (loop_body InBufSize DestBufSize s) as [[[|[|m]]|what|] s1] eqn:E;
    try discriminate.
  - now apply (IH s1).
  - injection H as <- ->. rewrite loop_body_refilled in E.
    destruct (refilled InBufSize s) as [ib1 w1].
    unfold decode in E.
    destruct (m_sourceBufferSize ib1 =? 0); [discriminate|].
    destruct (LZ4F_decompress (m_context ib1) DestBufSize (unconsumed ib1))
      as [code|[[c out] ctx']] eqn:Hd; [discriminate|].
    injection E as E1 <- <-.
    exists (m_context ib1), (unconsumed ib1), c, out.
    cbn [m_context destinationBuffer calls].
    split; [exact Hd|].
    split; [intros ->; discriminate|]. split; [exact E1|].
    split.
    + rewrite <- E1. unfold overwrite.
      rewrite firstn_app, Nat.sub_diag, firstn_all. simpl. apply app_nil_r.
    + eexists. reflexivity.
Qed.

(** X9. What [underflow] exposes.  When [underflow] returns a byte, the
    get area is exactly the output of the last [LZ4F_decompress] call
    (which was not empty), starting at its first byte, and the byte
    returned is that first byte; reading as many bytes as that call
    produced returns them in order without any further call on the
    upstream or the decoder. *)
Theorem underflow_exposes_last_output (fuel : nat) (s : state) (c : byte)
    (ib' : input_buffer) (w' : env) :
  underflow InBufSize DestBufSize fuel s
    = Some (Returns (Some c), (ib', w')) ->
  exists (d : dctx) (src : list byte) (consumed : nat) (out : list byte),
    LZ4F_decompress d DestBufSize src
      = LZ4F_ok (consumed, out, m_context ib') /\
    (exists before, calls w' = before ++ [Decompress DestBufSize src]) /\
    get_area ib' = out /\
    hd_error out = Some c /\
    forall fuel' : nat,
      sgetn InBufSize DestBufSize fuel' (length out) (ib', w')
      = Some (Returns out,
              (mk_input_buffer (sourceBuffer ib') (destinationBuffer ib')
                 (m_offset ib') (m_sourceBufferSize ib') (m_context ib')
                 (length out) (length out), w')).
Proof.
  unfold underflow.
  destruct (pull_loop InBufSize DestBufSize fuel s)
    as [[[[|n]|what|] [ib1 w1]]|] eqn:Hp; try discriminate.
  intros H. injection H as <- <- <-.
  destruct (pull_loop_written fuel s n ib1 w1 Hp)
    as (d & src & consumed & out & Hd & Hne & Hlen & Hfirst & Hcalls).
  exists d, src, consumed, out.
  assert (Hga : get_area (setg n ib1) = out).
  { unfold get_area, setg. cbn [gptr egptr destinationBuffer skipn].
    now rewrite Nat.sub_0_r. }
  assert (Hle : n <= length (destinationBuffer ib1)).
  { apply (f_equal (@length byte)) in Hfirst.
    rewrite length_firstn in Hfirst. lia. }
  split; [exact Hd|]. split; [exact Hcalls|]. split; [exact Hga|].
  split.
  - unfold deref_gptr, setg. cbn [gptr destinationBuffer].
    rewrite <- Hfirst. destruct (destinationBuffer ib1) as [|x l];
      [simpl in Hle; destruct out; [contradiction | simpl in Hlen; lia]|].
    destruct n; [destruct out; [contradiction | discriminate]|].
    reflexivity.
  - intros fuel'. rewrite Hlen.
    rewrite sgetn_get_area
      by (cbn [setg gptr egptr destinationBuffer]; lia).
    rewrite Hga. rewrite <- Hlen, firstn_all. reflexivity.
Qed.

(** X11. When the codec cannot create a session the constructor throws,
    naming the codec's error, and does nothing else: nothing is written
    to the sink or read from the upstream, no other codec call is made,
    and there is nothing to release. *)
Theorem creation_failure_is_reported :
  (forall code : errcode,
      LZ4F_createCompressionContext = LZ4F_error code ->
      forall (rs : list Sink.request) (w : Sink.env),
        Sink.lifetime SrcBufSize rs w
        = (Throws ("Failed to create LZ4 compression context: "
                     ++ LZ4F_getErrorName code)%string,
           Sink.mk_env (Sink.sink w)
             (Sink.calls w ++ [CreateCompressionContext]))) /\
  (forall code : errcode,
      LZ4F_createDecompressionContext = LZ4F_error code ->
      forall (fuel n : nat) (w : env),
        lifetime InBufSize DestBufSize fuel n w
        = Some (Throws ("Failed to create LZ4 decompression context: "
                          ++ LZ4F_getErrorName code)%string,
                mk_env (source w)
                  (calls w ++ [CreateDecompressionContext]))).
Proof.
  split.
  - intros code H rs w. unfold Sink.lifetime.
    rewrite construct_cases. cbv zeta. now rewrite H.
  - intros code H fuel n w. unfold lifetime, construct. now rewrite H.
Qed.

End GetArea.

(** ** The further properties on the concrete collaborators *)

Module CoverageExamples.
Import Toy ToyFacts.

Lemma toy_bounded (D : nat) : decoder_bounded (codec := codec bound) D.
Proof.
  intros d src. destruct src as [|b src];
    cbn [LZ4F_decompress codec toy_decompress length]; [split; lia|].
  destruct d.
  - destruct (Byte.eqb b magic); [split; simpl; lia | exact I].
  - destruct (Byte.eqb b tok_literal); [split; simpl; lia|].
    destruct (Byte.eqb b tok_end); [split; simpl; lia | exact I].
  - destruct (D =? 0) eqn:E; [split; simpl; lia|].
    apply Nat.eqb_neq in E. split; simpl; lia.
  - exact I.
Qed.

Lemma put_area_stays_in_bounds_witness :
  0 < 1 /\
  fits_int32 1 /\
  length (Sink.put_area (fst ready)) <= 1 - 1 /\
  length (Sink.put_area
            (fst (snd (Sink.perform_all (codec := stored) 1 unclosed
                         ready)))) <= 1 - 1 /\
  exists new : list call,
    Sink.calls
      (snd (snd (Sink.perform_all (codec := stored) 1 unclosed ready)))
    = Sink.calls (snd ready) ++ new /\
    spans_within 1 new /\
    spans_exact new.
Proof.
  assert (H1 : 0 < 1) by lia.
  assert (Hf : fits_int32 1) by reflexivity.
  assert (H2 : length (Sink.put_area (fst ready)) <= 1 - 1)
    by (simpl; lia).
  assert (H3 : Sink.perform_all (codec := stored) 1 unclosed ready
               = (Returns tt,
                  snd (Sink.perform_all (codec := stored) 1 unclosed
                         ready)))
    by (vm_compute; reflexivity).
  destruct (put_area_stays_in_bounds (codec := stored) 1 unclosed ready
              (snd (Sink.perform_all (codec := stored) 1 unclosed ready))
              (Returns tt) H1 Hf H2 H3) as (Hb & _ & Hn).
  split; [exact H1|]. split; [exact Hf|]. split; [exact H2|].
  split; [apply Hb; discriminate | exact Hn].
Defined.

Lemma bytes_are_conserved_witness :
  0 < 1 /\
  fits_int32 1 /\
  fed (Sink.calls
         (snd (snd (Sink.perform_all (codec := stored) 1 unclosed ready))))
    ++ Sink.put_area
         (fst (snd (Sink.perform_all (codec := stored) 1 unclosed ready)))
  = fed (Sink.calls (snd ready)) ++ Sink.put_area (fst ready)
      ++ flat_map Sink.written_by unclosed.
Proof.
  assert (H1 : 0 < 1) by lia.
  assert (Hf : fits_int32 1) by reflexivity.
  assert (H : Sink.perform_all (codec := stored) 1 unclosed ready
              = (Returns tt,
                 snd (Sink.perform_all (codec := stored) 1 unclosed ready)))
    by (vm_compute; reflexivity).
  split; [exact H1|]. split; [exact Hf|].
  exact (proj1 (bytes_are_conserved (codec := stored) 1 unclosed ready
                  (snd (Sink.perform_all (codec := stored) 1 unclosed ready))
                  tt H1 Hf (le_n 0) H)).
Defined.

Lemma write_then_close_calls_witness :
  0 < 1 /\
  fits_int32 1 /\
  exists (spans : list (list byte)) (rest : list byte),
    Sink.calls (snd (Sink.compress (codec := stored) 1 sample)) =
      [CreateCompressionContext; CompressBegin 1]
        ++ map (CompressUpdate 1) (spans ++ [rest])
        ++ [CompressEnd 1; FreeCompressionContext] /\
    Forall (fun src => length src = 1) spans /\
    length rest < 1 /\
    concat spans ++ rest = sample /\
    Sink.compress_frame (codec := stored) 1 (spans ++ [rest])
    = Some (Sink.sink (snd (Sink.compress (codec := stored) 1 sample))).
Proof.
  assert (H1 : 0 < 1) by lia.
  assert (Hf : fits_int32 1) by reflexivity.
  assert (H2 : Sink.compress (codec := stored) 1 sample
               = (Returns tt,
                  snd (Sink.compress (codec := stored) 1 sample)))
    by (vm_compute; reflexivity).
  split; [exact H1|]. split; [exact Hf|].
  destruct (write_then_close_calls (codec := stored) 1 sample
              (snd (Sink.compress (codec := stored) 1 sample)) H1 Hf H2)
    as (_ & spans & rest & Hc & Hs & Hr & Hcat & _ & Hfr).
  exists spans, rest.
  split; [exact Hc|]. split; [exact Hs|]. split; [exact Hr|].
  split; [exact Hcat | exact Hfr].
Defined.

Lemma failed_flush_drops_the_span_witness :
  fits_int32 1 /\
  exists s1 : Sink.state (codec := tight),
    snd (Sink.flush (codec := tight) 3
           (Sink.mk_output_buffer (codec := tight) [x61] CBegun false, fresh))
      = s1 /\
    Sink.put_area (fst s1) = [] /\
    Sink.calls (snd (snd (Sink.flush (codec := tight) 3 s1)))
    = [CompressUpdate 1 [x61]; CompressUpdate 1 []].
Proof.
  assert (Hf : fits_int32 1) by reflexivity.
  split; [exact Hf|].
  destruct (failed_flush_drops_the_span (codec := tight) 3
              (Sink.mk_output_buffer (codec := tight) [x61] CBegun false)
              fresh dstMaxSize_tooSmall eq_refl Hf eq_refl)
    as (_ & s1 & H1 & H2 & _ & _ & H3 & _).
  exists s1. split; [exact H1|]. split; [exact H2 | exact H3].
Defined.

Lemma memory_bounded : source_bounded (upstream := memory).
Proof. intros src n. cbn [istream_read memory fst]. apply firstn_le_length. Qed.

Lemma reader_keeps_its_bounds_witness :
  Source.inv 4 2 (fst (reader 2 sample_frame)) /\
  Source.inv 4 2
    (fst (match Source.sgetn (codec := codec bound) (upstream := memory)
                  4 2 9 5 (reader 2 sample_frame) with
          | Some (_, s') => s'
          | None => reader 2 []
          end)).
Proof.
  destruct (reader_keeps_its_bounds (codec := codec bound)
              (upstream := memory) 4 2 (toy_bounded 2) memory_bounded)
    as [Hc Hr].
  assert (H0 : Source.inv 4 2 (fst (reader 2 sample_frame))).
  { apply (Hc (Source.mk_env (upstream := memory) sample_frame [])
              (snd (reader 2 sample_frame))).
    reflexivity. }
  split; [exact H0|].
  destruct (Source.sgetn (codec := codec bound) (upstream := memory)
              4 2 9 5 (reader 2 sample_frame)) as [[r s']|] eqn:E.
  - exact (Hr 9 5 _ s' r H0 E).
  - vm_compute in E. discriminate.
Defined.

Lemma reader_calls_are_orderly_witness :
  exists new : list call,
    Source.calls
      (snd (match Source.sgetn (codec := codec bound) (upstream := memory)
                    4 2 9 5 (reader 2 sample_frame) with
            | Some (_, s') => s'
            | None => reader 2 []
            end))
    = Source.calls (snd (reader 2 sample_frame)) ++ new /\
    Forall (Source.orderly 4 2) new.
Proof.
  assert (H0 : Source.inv 4 2 (fst (reader 2 sample_frame))).
  { unfold Source.inv, Source.wf. simpl. lia. }
  destruct (Source.sgetn (codec := codec bound) (upstream := memory)
              4 2 9 5 (reader 2 sample_frame)) as [[r s']|] eqn:E.
  - exact (reader_calls_are_orderly (codec := codec bound)
             (upstream := memory) 4 2 (toy_bounded 2) memory_bounded
             9 5 _ s' r H0 E).
  - vm_compute in E. discriminate.
Defined.

(** Five bytes read from the frame of [sample]: the decoder has taken
    the header and five literals, the first eleven bytes of the frame,
    and what is still to go through it is the rest. *)
Lemma reader_consumes_in_order_witness :
  exists (new : list call) (took : list byte),
    Source.calls
      (snd (match Source.sgetn (codec := codec bound) (upstream := memory)
                    4 2 9 5 (reader 2 sample_frame) with
            | Some (_, s') => s'
            | None => reader 2 []
            end))
    = Source.calls (snd (reader 2 sample_frame)) ++ new /\
    took = firstn 11 sample_frame /\
    Source.pending (upstream := memory) (fun s : list byte => s)
      (match Source.sgetn (codec := codec bound) (upstream := memory)
               4 2 9 5 (reader 2 sample_frame) with
       | Some (_, s') => s'
       | None => reader 2 []
       end)
    = skipn 11 sample_frame.
Proof.
  assert (H0 : Source.inv 4 2 (fst (reader 2 sample_frame))).
  { unfold Source.inv, Source.wf. simpl. lia. }
  assert (E : Source.sgetn (codec := codec bound) (upstream := memory)
                4 2 9 5 (reader 2 sample_frame)
              = Some (Returns [x61; x62; x63; x64; x65],
                      match Source.sgetn (codec := codec bound)
                              (upstream := memory) 4 2 9 5
                              (reader 2 sample_frame) with
                      | Some (_, s') => s'
                      | None => reader 2 []
                      end))
    by (vm_compute; reflexivity).
  assert (Hs : Source.pending (upstream := memory) (fun s : list byte => s)
                 (match Source.sgetn (codec := codec bound)
                          (upstream := memory) 4 2 9 5
                          (reader 2 sample_frame) with
                  | Some (_, s') => s'
                  | None => reader 2 []
                  end)
               = skipn 11 sample_frame)
    by (vm_compute; reflexivity).
  assert (Hb : Source.pending (upstream := memory) (fun s : list byte => s)
                 (reader 2 sample_frame)
               = firstn 11 sample_frame ++ skipn 11 sample_frame)
    by (vm_compute; reflexivity).
  destruct (reader_consumes_in_order (codec := codec bound)
              (upstream := memory) 4 2 (fun s : list byte => s)
              memory_reads 9 5 (reader 2 sample_frame)
              (match Source.sgetn (codec := codec bound)
                       (upstream := memory) 4 2 9 5
                       (reader 2 sample_frame) with
               | Some (_, s') => s'
               | None => reader 2 []
               end)
              (Returns [x61; x62; x63; x64; x65])
              (toy_bounded 2) H0 E)
    as (new & took & Hc & _ & _ & _ & _ & Hp).
  exists new, took. split; [exact Hc|]. split; [|exact Hs].
  rewrite Hs, Hb in Hp.
  apply app_inv_tail in Hp. symmetry. exact Hp.
Defined.

Lemma underflow_exposes_last_output_witness :
  exists (d : dstage) (src : list byte) (consumed : nat) (out : list byte),
    toy_decompress d 2 src
      = LZ4F_ok (consumed, out,
                 Source.m_context
                   (fst (match Source.underflow (codec := codec bound)
                                 (upstream := memory) 4 2 5
                                 (reader 2 sample_frame) with
                         | Some (_, s') => s'
                         | None => reader 2 []
                         end))) /\
    Source.get_area
      (fst (match Source.underflow (codec := codec bound)
                    (upstream := memory) 4 2 5 (reader 2 sample_frame) with
            | Some (_, s') => s'
            | None => reader 2 []
            end)) = out /\
    hd_error out = Some x61.
Proof.
  assert (E : Source.underflow (codec := codec bound) (upstream := memory)
                4 2 5 (reader 2 sample_frame)
              = Some (Returns (Some x61),
                      (fst (match Source.underflow (codec := codec bound)
                                    (upstream := memory) 4 2 5
                                    (reader 2 sample_frame) with
                            | Some (_, s') => s'
                            | None => reader 2 []
                            end),
                       snd (match Source.underflow (codec := codec bound)
                                    (upstream := memory) 4 2 5
                                    (reader 2 sample_frame) with
                            | Some (_, s') => s'
                            | None => reader 2 []
                            end))))
    by (vm_compute; reflexivity).
  destruct (underflow_exposes_last_output (codec := codec bound)
              (upstream := memory) 4 2 5 (reader 2 sample_frame) x61 _ _ E)
    as (d & src & consumed & out & Hd & _ & Hga & Hhd & _).
  exists d, src, consumed, out.
  split; [exact Hd|]. split; [exact Hga | exact Hhd].
Defined.

Lemma creation_failure_is_reported_witness :
  Sink.lifetime (codec := exhausted) 3 [Sink.Write sample] fresh
    = (Throws "Failed to create LZ4 compression context: ERROR_GENERIC",
       Sink.mk_env [] [CreateCompressionContext]) /\
  Source.lifetime (codec := exhausted) (upstream := memory) 4 2 9 5
    (Source.mk_env (upstream := memory) sample [])
    = Some (Throws "Failed to create LZ4 decompression context: ERROR_GENERIC",
            Source.mk_env (upstream := memory) sample
              [CreateDecompressionContext]).
Proof.
  destruct (creation_failure_is_reported (codec := exhausted)
              (upstream := memory) 3 4 2) as [Hs Hr].
  split.
  - exact (Hs GENERIC eq_refl [Sink.Write sample] fresh).
  - exact (Hr GENERIC eq_refl 9 5
             (Source.mk_env (upstream := memory) sample [])).
Defined.

Lemma output_buffer_frees_once_witness :
  count is_free_cctx
    (Sink.calls
       (snd (Sink.lifetime (codec := stored) 1
               [Sink.Write sample; Sink.CloseNow; Sink.CloseNow] fresh)))
  = count is_free_cctx (Sink.calls fresh) + 1.
Proof.
  assert (H : Sink.lifetime (codec := stored) 1
                [Sink.Write sample; Sink.CloseNow; Sink.CloseNow] fresh
              = (Returns tt,
                 snd (Sink.lifetime (codec := stored) 1
                        [Sink.Write sample; Sink.CloseNow; Sink.CloseNow]
                        fresh)))
    by (vm_compute; reflexivity).
  apply (output_buffer_frees_once (codec := stored) 1
           [Sink.Write sample; Sink.CloseNow; Sink.CloseNow] fresh
           (snd ready) _ (fst ready) (Returns tt)).
  - reflexivity.
  - exact H.
  - discriminate.
Defined.

Lemma input_buffer_frees_once_witness :
  count is_free_dctx
    (Source.calls
       (match Source.lifetime (codec := codec bound) (upstream := memory)
                4 2 9 20 (Source.mk_env (upstream := memory) garbled [])
        with
        | Some (_, w') => w'
        | None => Source.mk_env (upstream := memory) [] []
        end))
  = count is_free_dctx [] + 1.
Proof.
  destruct (Source.lifetime (codec := codec bound) (upstream := memory)
              4 2 9 20 (Source.mk_env (upstream := memory) garbled []))
    as [[r w']|] eqn:E; [|vm_compute in E; discriminate].
  exact (input_buffer_frees_once (codec := codec bound) (upstream := memory)
           4 2 9 20 (Source.mk_env (upstream := memory) garbled [])
           (snd (reader 2 garbled)) w' (fst (reader 2 garbled)) r
           eq_refl E).
Defined.

End CoverageExamples.
